(** * ClearWave: the real-time audio callback of [clearwave.py]

    A shallow embedding of [AudioProcessor.run.callback], [AudioProcessor.stop]
    and of the part of [AudioDenoiser] that sets the noise-reduction strength.

    Samples are modelled as real numbers: the development reasons about the
    exact arithmetic that the float32/float64 computation approximates.
    Exceptions are values of [result]; the mutable fields of the processor
    and the output buffer are threaded through a state-and-exception monad. *)

From Stdlib Require Import String.
From Stdlib Require Import Reals Lra Lia List ZArith Bool Arith Sorted.
Import ListNotations.
Open Scope string_scope.
Open Scope R_scope.

(** ** Exceptions *)

Inductive exn : Type :=
| ValueError (msg : string)
| TypeError (msg : string)
| AttributeError (msg : string).

Inductive result (A : Type) : Type :=
| Ok (a : A)
| Raise (e : exn).

Arguments Ok {A} a.
Arguments Raise {A} e.

Definition rbind {A B : Type} (r : result A) (k : A -> result B) : result B :=
  match r with
  | Ok a => k a
  | Raise e => Raise e
  end.

Declare Scope result_scope.
Delimit Scope result_scope with result.
Notation "x <- r ;; k" := (rbind r (fun x => k))
  (at level 61, r at next level, right associativity) : result_scope.

Definition is_ok {A : Type} (r : result A) : bool :=
  match r with Ok _ => true | Raise _ => false end.

(** ** Arrays *)

(** A complex number is a pair (real part, imaginary part). *)
Definition cplx : Type := (R * R)%type.

(** A two-dimensional array carries its shape, so that arrays with no rows
    or no columns keep the other dimension, as NumPy arrays do.  Rows are
    frames, columns are channels. *)
Record array2 (A : Type) : Type := mk2 {
  nrows : nat;
  ncols : nat;
  rows : list (list A)
}.

Arguments mk2 {A} nrows ncols rows.
Arguments nrows {A} a.
Arguments ncols {A} a.
Arguments rows {A} a.

Definition wf {A : Type} (a : array2 A) : Prop :=
  length (rows a) = nrows a /\ Forall (fun r => length r = ncols a) (rows a).

Definition wfb {A : Type} (a : array2 A) : bool :=
  Nat.eqb (length (rows a)) (nrows a)
  && forallb (fun r => Nat.eqb (length r) (ncols a)) (rows a).

Definition tabulate {A : Type} (r c : nat) (f : nat -> nat -> A) : array2 A :=
  mk2 r c (map (fun i => map (fun j => f i j) (seq 0 c)) (seq 0 r)).

(** [a[i, j]] *)
Definition get {A : Type} (d : A) (a : array2 A) (i j : nat) : A :=
  nth j (nth i (rows a) []) d.

(** [a[i, j]] after broadcasting [a] to a larger shape: an axis of length 1
    is read at index 0. *)
Definition bget {A : Type} (d : A) (a : array2 A) (i j : nat) : A :=
  get d a (if Nat.eqb (nrows a) 1 then 0%nat else i)
          (if Nat.eqb (ncols a) 1 then 0%nat else j).

Definition same_shape {A B : Type} (a : array2 A) (b : array2 B) : bool :=
  Nat.eqb (nrows a) (nrows b) && Nat.eqb (ncols a) (ncols b).

(** The broadcast of two axis lengths. *)
Definition bdim (a b : nat) : option nat :=
  if Nat.eqb a b then Some a
  else if Nat.eqb a 1 then Some b
  else if Nat.eqb b 1 then Some a
  else None.

(** Whether an axis of length [src] can be stored into one of length [dst]. *)
Definition fits (src dst : nat) : bool :=
  Nat.eqb src dst || Nat.eqb src 1.

(** [a op b] for two-dimensional operands, with broadcasting. *)
Definition bop (f : R -> R -> R) (a b : array2 R) : result (array2 R) :=
  match bdim (nrows a) (nrows b), bdim (ncols a) (ncols b) with
  | Some r, Some c =>
      Ok (tabulate r c (fun i j => f (bget 0 a i j) (bget 0 b i j)))
  | _, _ => Raise (ValueError "operands could not be broadcast together")
  end.

(** [a[:k] op= b]: in place on the first [k] rows of [a]. *)
Definition islice_op (f : R -> R -> R) (a : array2 R) (k : nat) (b : array2 R)
  : result (array2 R) :=
  let k' := Nat.min k (nrows a) in
  if fits (nrows b) k' && fits (ncols b) (ncols a) then
    Ok (tabulate (nrows a) (ncols a)
          (fun i j => if Nat.ltb i k' then f (get 0 a i j) (bget 0 b i j)
                      else get 0 a i j))
  else Raise (ValueError "operands could not be broadcast together").

(** [a[-k:]]: the last [k] rows; [a[-0:]] is [a[0:]], the whole array. *)
Definition last_rows (a : array2 R) (k : nat) : array2 R :=
  let start := if Nat.eqb k 0 then 0%nat else (nrows a - k)%nat in
  tabulate (nrows a - start) (ncols a) (fun i j => get 0 a (start + i) j).

(** [v[:, np.newaxis]]: a vector as a one-column array. *)
Definition newaxis (v : list R) : array2 R :=
  tabulate (length v) 1 (fun i _ => nth i v 0).

(** [a[:, ch]] *)
Definition column (a : array2 R) (ch : nat) : list R :=
  map (fun i => get 0 a i ch) (seq 0 (nrows a)).

(** [a[:, ch] = v] *)
Definition set_column (a : array2 R) (ch : nat) (v : list R)
  : result (array2 R) :=
  if fits (length v) (nrows a) then
    Ok (tabulate (nrows a) (ncols a)
          (fun i j => if Nat.eqb j ch
                      then nth (if Nat.eqb (length v) 1 then 0%nat else i) v 0
                      else get 0 a i j))
  else Raise (ValueError "could not broadcast input array into shape").

(** [dst[:] = src] for a destination of shape [(r, c)]; the value stored. *)
Definition setitem_all (r c : nat) (src : array2 R) : result (array2 R) :=
  if Nat.eqb (nrows src) r && Nat.eqb (ncols src) c then Ok src
  else if fits (nrows src) r && fits (ncols src) c then
    Ok (tabulate r c (fun i j => bget 0 src i j))
  else Raise (ValueError "could not broadcast input array into shape").

Definition amap (f : R -> R) (a : array2 R) : array2 R :=
  tabulate (nrows a) (ncols a) (fun i j => f (get 0 a i j)).

(** All entries, row by row. *)
Definition entries (a : array2 R) : list R :=
  flat_map (fun i => map (fun j => get 0 a i j) (seq 0 (ncols a)))
           (seq 0 (nrows a)).

Definition rsum (l : list R) : R := fold_right Rplus 0 l.

Definition b2r (b : bool) : R := if b then 1 else 0.

(** [m > t] on reals, as a boolean. *)
Definition gtb (m t : R) : bool := if Rlt_dec t m then true else false.

(** [int(x)]: truncation towards zero. *)
Definition py_int (x : R) : Z :=
  if Rle_dec 0 x then Int_part x else (- Int_part (- x))%Z.

(** ** The NumPy functions the callback calls *)

Module np.

(** A value passed where NumPy expects an array: one- or two-dimensional. *)
Inductive ndarray : Type :=
| A1 (v : list R)
| A2 (m : array2 R).

Definition len (a : ndarray) : nat :=
  match a with
  | A1 v => length v
  | A2 m => nrows m
  end.

Definition zeros_like (a : array2 R) : array2 R :=
  tabulate (nrows a) (ncols a) (fun _ _ => 0).

(** [np.abs] of a complex number. *)
Definition abs (z : cplx) : R := sqrt (fst z * fst z + snd z * snd z).

Definition mean (l : list R) : R := rsum l / INR (length l).

(** [np.hanning(M)]: [0.5 + 0.5*cos(pi*n/(M-1))] for [n = 1-M, 3-M, ..., M-1]. *)
Definition hanning (M : nat) : list R :=
  match M with
  | O => []
  | S O => [1]
  | _ =>
      map (fun i =>
             1/2 + 1/2 * cos (PI * IZR (1 - Z.of_nat M + 2 * Z.of_nat i)
                              / INR (M - 1)))
          (seq 0 M)
  end.

(** Entry [k] of the full discrete convolution of [a] and [v]. *)
Definition conv_at (a v : list R) (k : nat) : R :=
  rsum (map (fun j => if Nat.leb j k then nth (k - j) a 0 * nth j v 0 else 0)
            (seq 0 (length v))).

(** [np.convolve(a, v, mode='same')].  The longer operand comes first; both
    must be non-empty and one-dimensional; the result has the length of the
    longer one and is the centred part of the full convolution. *)
Definition convolve_same (a v : ndarray) : result (list R) :=
  let (a, v) := if Nat.ltb (len a) (len v) then (v, a) else (a, v) in
  if Nat.eqb (len a) 0 then Raise (ValueError "a cannot be empty")
  else if Nat.eqb (len v) 0 then Raise (ValueError "v cannot be empty")
  else
    match a, v with
    | A1 a, A1 v =>
        let n2 := length v in
        Ok (map (fun i => conv_at a v (i + (n2 - 1 - n2 / 2)))
                (seq 0 (length a)))
    | _, _ => Raise (ValueError "object too deep for desired array")
    end.

(** Entry [i] of [np.linspace(start, stop, n)]: evenly spaced, the last
    entry set to [stop] when there is more than one. *)
Definition linspace_at (start stop : R) (n i : nat) : R :=
  if Nat.ltb 1 n && Nat.eqb i (n - 1) then stop
  else start + INR i * ((stop - start) / INR (n - 1)).

(** [np.linspace(start, stop, num)] *)
Definition linspace (start stop : R) (num : Z) : result (list R) :=
  if Z.ltb num 0 then
    Raise (ValueError "Number of samples must be non-negative")
  else
    let n := Z.to_nat num in
    Ok (map (linspace_at start stop n) (seq 0 n)).

(** [np.max] of a flattened array. *)
Definition max (l : list R) : result R :=
  match l with
  | [] => Raise (ValueError "zero-size array to reduction operation maximum")
  | x :: t => Ok (fold_left Rmax t x)
  end.

Module fft.

(** Bin [k] of the discrete Fourier transform of [a]. *)
Definition dft_bin (a : list R) (k : nat) : cplx :=
  let n := length a in
  let w := fun t => 2 * PI * INR k * INR t / INR n in
  (rsum (map (fun t => nth t a 0 * cos (w t)) (seq 0 n)),
   - rsum (map (fun t => nth t a 0 * sin (w t)) (seq 0 n))).

(** [np.fft.rfft(a)]: bins [0 .. n/2] of the transform of [n] samples. *)
Definition rfft (a : list R) : result (list cplx) :=
  let n := length a in
  if Nat.ltb n 1 then
    Raise (ValueError "Invalid number of FFT data points")
  else Ok (map (dft_bin a) (seq 0 (n / 2 + 1))).

(** Sample [j] of the inverse real transform of the bins [X], [n] samples.
    The first and last bins contribute their real part only; the bins in
    between stand for themselves and for their conjugates. *)
Definition idft_sample (X : list cplx) (n j : nat) : R :=
  rsum (map (fun k =>
               let w := 2 * PI * INR k * INR j / INR n in
               let z := nth k X (0, 0) in
               if Nat.eqb k 0 || Nat.eqb k (n / 2) then fst z * cos w
               else 2 * (fst z * cos w - snd z * sin w))
            (seq 0 (n / 2 + 1)))
  / INR n.

(** [np.fft.irfft(X)]: [n = 2*(len(X) - 1)] samples. *)
Definition irfft (X : list cplx) : result (list R) :=
  let n := (2 * (length X - 1))%nat in
  if Nat.ltb n 1 then
    Raise (ValueError "Invalid number of FFT data points")
  else Ok (map (idft_sample X n) (seq 0 n)).

(** [np.fft.rfft(a, axis=0)]: the transform of every column. *)
Definition rfft_axis0 (a : array2 R) : result (array2 cplx) :=
  if Nat.ltb (nrows a) 1 then
    Raise (ValueError "Invalid number of FFT data points")
  else
    Ok (tabulate (nrows a / 2 + 1) (ncols a)
          (fun k ch => dft_bin (column a ch) k)).

(** [np.fft.irfft(X, axis=0)] *)
Definition irfft_axis0 (X : array2 cplx) : result (array2 R) :=
  let n := (2 * (nrows X - 1))%nat in
  if Nat.ltb n 1 then
    Raise (ValueError "Invalid number of FFT data points")
  else
    Ok (tabulate n (ncols X)
          (fun j ch =>
             idft_sample (map (fun k => get (0, 0) X k ch)
                              (seq 0 (nrows X))) n j)).

End fft.

End np.

(** ** The spectral gate: the body of the per-channel loop *)

Definition cscale (z : cplx) (m : R) : cplx := (fst z * m, snd z * m).

(** [freq_data *= smoothed_mask] on one-dimensional operands: the mask must
    have the length of the spectrum, or length 1. *)
Definition imul_mask (freq_data : list cplx) (m : list R)
  : result (list cplx) :=
  if fits (length m) (length freq_data) then
    Ok (map (fun k =>
               cscale (nth k freq_data (0, 0))
                      (nth (if Nat.eqb (length m) 1 then 0%nat else k) m 0))
            (seq 0 (length freq_data)))
  else Raise (ValueError "operands could not be broadcast together").

(** The boolean keep-mask of one channel. *)
Definition keep_mask (magnitudes : list R) (noise_reduction : R) : list bool :=
  let threshold := np.mean magnitudes * noise_reduction in
  map (fun m => gtb m threshold) magnitudes.

(** [smoothing_window / smoothing_window.sum()] *)
Definition smoothing_kernel : list R :=
  let smoothing_window := np.hanning 5 in
  map (fun w => w / rsum smoothing_window) smoothing_window.

(** Lines 41-62: transform, gate, smooth, resynthesise, trim. *)
Definition gate (channel_data : list R) (noise_reduction : R)
  : result (list R) :=
  (freq_data <- np.fft.rfft channel_data ;;
   let magnitudes := map np.abs freq_data in
   let mask := keep_mask magnitudes noise_reduction in
   smoothed_mask <-
     np.convolve_same (np.A1 (map b2r mask)) (np.A1 smoothing_kernel) ;;
   freq_data <- imul_mask freq_data smoothed_mask ;;
   clean_audio <- np.fft.irfft freq_data ;;
   Ok (if Nat.eqb (length clean_audio) (length channel_data)
       then clean_audio
       else firstn (length channel_data) clean_audio))%result.

(** Lines 37-65: [for ch in range(audio_data.shape[1])]. *)
Fixpoint process_channels (noise_reduction : R) (chs : list nat)
  (audio_data : array2 R) : result (array2 R) :=
  match chs with
  | [] => Ok audio_data
  | ch :: rest =>
      (clean_audio <- gate (column audio_data ch) noise_reduction ;;
       audio_data <- set_column audio_data ch clean_audio ;;
       process_channels noise_reduction rest audio_data)%result
  end.

(** ** The crossfade: lines 68-74 (and 117-123) *)

Definition fade_len (frames : nat) (overlap : R) : Z :=
  py_int (INR frames * overlap).

Definition crossfade (overlap : R) (audio_data prev_buffer : array2 R)
  : result (array2 R) :=
  (let fl := fade_len (nrows audio_data) overlap in
   fade_in <- np.linspace 0 1 fl ;;
   fade_out <- np.linspace 1 0 fl ;;
   let k := Z.to_nat fl in
   audio_data <- islice_op Rmult audio_data k (newaxis fade_in) ;;
   faded_prev <- bop Rmult (last_rows prev_buffer k) (newaxis fade_out) ;;
   islice_op Rplus audio_data k faded_prev)%result.

(** ** The normalisation: lines 80-82 (and 129-130) *)

Definition peak (audio_data : array2 R) : result R :=
  np.max (map Rabs (entries audio_data)).

Definition normalize (audio_data : array2 R) : result (array2 R) :=
  (max_val <- peak audio_data ;;
   Ok (if Rlt_dec 0 max_val
       then amap (fun x => x / max_val * (9 / 10)) audio_data
       else audio_data))%result.

(** ** The processor and its callback *)

Record AudioProcessor : Type := mkAudioProcessor {
  running : bool;
  noise_reduction : R;
  output_device : option Z;
  prev_buffer : option (array2 R);
  buffer_size : nat;
  overlap : R
}.

(** [AudioProcessor.__init__] *)
Definition AudioProcessor_init : AudioProcessor :=
  {| running := false;
     noise_reduction := 5 / 10;
     output_device := None;
     prev_buffer := None;
     buffer_size := 2048;
     overlap := 5 / 10 |}.

Definition with_prev_buffer (s : AudioProcessor) (p : option (array2 R))
  : AudioProcessor :=
  {| running := running s;
     noise_reduction := noise_reduction s;
     output_device := output_device s;
     prev_buffer := p;
     buffer_size := buffer_size s;
     overlap := overlap s |}.

(** What the callback can change: the processor and the output buffer. *)
Record env : Type := mkEnv {
  self : AudioProcessor;
  outdata : array2 R
}.

Definition M (A : Type) : Type := env -> env * result A.

Definition ret {A : Type} (a : A) : M A := fun e => (e, Ok a).

Definition bind {A B : Type} (m : M A) (k : A -> M B) : M B :=
  fun e =>
    match m e with
    | (e', Ok a) => k a e'
    | (e', Raise x) => (e', Raise x)
    end.

Definition lift {A : Type} (r : result A) : M A := fun e => (e, r).

Definition get_self : M AudioProcessor := fun e => (e, Ok (self e)).

Definition set_prev_buffer (p : array2 R) : M unit :=
  fun e => (mkEnv (with_prev_buffer (self e) (Some p)) (outdata e), Ok tt).

(** [self.prev_buffer] used as an array. *)
Definition read_prev_buffer : M (array2 R) :=
  fun e =>
    match prev_buffer (self e) with
    | Some p => (e, Ok p)
    | None => (e, Raise (TypeError "'NoneType' object is not subscriptable"))
    end.

(** [outdata[:] = v] *)
Definition write_outdata (v : array2 R) : M unit :=
  fun e =>
    match setitem_all (nrows (outdata e)) (ncols (outdata e)) v with
    | Ok w => (mkEnv (self e) w, Ok tt)
    | Raise x => (e, Raise x)
    end.

(** [try: body  except Exception as e: handler] *)
Definition try_except (body : M unit) (handler : exn -> M unit) : M unit :=
  fun e =>
    match body e with
    | (e', Ok _) => (e', Ok tt)
    | (e', Raise x) => handler x e'
    end.

Declare Scope monad_scope.
Delimit Scope monad_scope with M.
Notation "x <- m ;; k" := (bind m (fun x => k))
  (at level 61, m at next level, right associativity) : monad_scope.
Notation "m ;; k" := (bind m (fun _ => k))
  (at level 61, right associativity) : monad_scope.

(** Lines 33-34 and 96-97. *)
Definition init_prev_buffer (audio_data : array2 R) : M unit :=
  fun e =>
    match prev_buffer (self e) with
    | None =>
        (mkEnv (with_prev_buffer (self e) (Some (np.zeros_like audio_data)))
               (outdata e), Ok tt)
    | Some _ => (e, Ok tt)
    end.

(** Lines 27-85, the body of the first [try].  [indata] is the
    two-dimensional (frames x channels) block the transport delivers. *)
Definition section1 (indata : array2 R) : M unit :=
  (let audio_data := indata in
   init_prev_buffer audio_data ;;
   s <- get_self ;;
   audio_data <- lift (process_channels (noise_reduction s)
                         (seq 0 (ncols audio_data)) audio_data) ;;
   prev <- read_prev_buffer ;;
   audio_data <- lift (crossfade (overlap s) audio_data prev) ;;
   set_prev_buffer audio_data ;;
   audio_data <- lift (normalize audio_data) ;;
   write_outdata audio_data)%M.

(** [freq_data * smoothed_mask[:, np.newaxis]] *)
Definition cbop (freq_data : array2 cplx) (m : array2 R)
  : result (array2 cplx) :=
  match bdim (nrows freq_data) (nrows m), bdim (ncols freq_data) (ncols m) with
  | Some r, Some c =>
      Ok (tabulate r c
            (fun i j => cscale (bget (0, 0) freq_data i j) (bget 0 m i j)))
  | _, _ => Raise (ValueError "operands could not be broadcast together")
  end.

(** Lines 92-132, the body of the second [try].  [phases] is computed at
    line 103 and never read; it is left out. *)
Definition section2 (indata : array2 R) : M unit :=
  (let audio_data := indata in
   init_prev_buffer audio_data ;;
   s <- get_self ;;
   freq_data <- lift (np.fft.rfft_axis0 audio_data) ;;
   let magnitudes :=
     tabulate (nrows freq_data) (ncols freq_data)
       (fun i j => np.abs (get (0, 0) freq_data i j)) in
   let threshold := np.mean (entries magnitudes) * noise_reduction s in
   let mask := amap (fun m => b2r (gtb m threshold)) magnitudes in
   smoothed_mask <-
     lift (np.convolve_same (np.A2 mask) (np.A1 (np.hanning 5))) ;;
   freq_data_clean <- lift (cbop freq_data (newaxis smoothed_mask)) ;;
   clean_audio <- lift (np.fft.irfft_axis0 freq_data_clean) ;;
   prev <- read_prev_buffer ;;
   clean_audio <- lift (crossfade (overlap s) clean_audio prev) ;;
   set_prev_buffer clean_audio ;;
   clean_audio <- lift (normalize clean_audio) ;;
   write_outdata clean_audio)%M.

(** Lines 87-89 and 134-136. *)
Definition fallback (indata : array2 R) (e : exn) : M unit :=
  write_outdata indata.

(** [callback(indata, outdata, frames, time, status)] *)
Definition callback_m (indata : array2 R) : M unit :=
  (try_except (section1 indata) (fallback indata) ;;
   try_except (section2 indata) (fallback indata))%M.

Definition callback (s : AudioProcessor) (indata outdata0 : array2 R)
  : env * result unit :=
  callback_m indata (mkEnv s outdata0).

(** [AudioProcessor.stop] *)
Definition stop (s : AudioProcessor) : AudioProcessor :=
  {| running := false;
     noise_reduction := noise_reduction s;
     output_device := output_device s;
     prev_buffer := None;
     buffer_size := buffer_size s;
     overlap := overlap s |}.

(** ** The control surface: the strength slider of [AudioDenoiser] *)

(** A [QSlider]: range, value, and whether [valueChanged] has been connected
    to [update_noise_reduction].  A new slider has range 0..99 and value 0. *)
Record QSlider : Type := mkQSlider {
  minimum : Z;
  maximum : Z;
  value : Z;
  valueChanged_connected : bool
}.

Record AudioDenoiser : Type := mkAudioDenoiser {
  noise_slider : QSlider;
  audio_processor : option AudioProcessor
}.

Definition with_noise_reduction (s : AudioProcessor) (x : R) : AudioProcessor :=
  {| running := running s;
     noise_reduction := x;
     output_device := output_device s;
     prev_buffer := prev_buffer s;
     buffer_size := buffer_size s;
     overlap := overlap s |}.

(** [update_noise_reduction(value)]: [value / 100.0] *)
Definition update_noise_reduction (v : Z) (d : AudioDenoiser)
  : result AudioDenoiser :=
  match audio_processor d with
  | Some p =>
      Ok (mkAudioDenoiser (noise_slider d)
            (Some (with_noise_reduction p (IZR v / 100))))
  | None =>
      Raise (AttributeError "'AudioDenoiser' object has no attribute 'audio_processor'")
  end.

Definition clamp (lo hi v : Z) : Z := Z.max lo (Z.min hi v).

(** [noise_slider.setValue(v)]: the value is clamped to the range; when it
    changes, [valueChanged] is emitted to the slots connected so far. *)
Definition setValue (v : Z) (d : AudioDenoiser) : result AudioDenoiser :=
  let sl := noise_slider d in
  let v' := clamp (minimum sl) (maximum sl) v in
  if Z.eqb v' (value sl) then Ok d
  else
    let d' :=
      mkAudioDenoiser
        (mkQSlider (minimum sl) (maximum sl) v' (valueChanged_connected sl))
        (audio_processor d) in
    if valueChanged_connected sl then update_noise_reduction v' d' else Ok d'.

Definition setRange (lo hi : Z) (d : AudioDenoiser) : AudioDenoiser :=
  let sl := noise_slider d in
  mkAudioDenoiser
    (mkQSlider lo hi (clamp lo hi (value sl)) (valueChanged_connected sl))
    (audio_processor d).

Definition connect_valueChanged (d : AudioDenoiser) : AudioDenoiser :=
  let sl := noise_slider d in
  mkAudioDenoiser (mkQSlider (minimum sl) (maximum sl) (value sl) true)
                  (audio_processor d).

(** [AudioDenoiser.__init__], lines 216-232: the slider is given its range
    and the value 30, then [valueChanged] is connected, then the processor
    is created. *)
Definition AudioDenoiser_init : result AudioDenoiser :=
  (let d := mkAudioDenoiser (mkQSlider 0 99 0 false) None in
   let d := setRange 0 (maximum (noise_slider d)) d in
   let d := setRange (minimum (noise_slider d)) 100 d in
   d <- setValue 30 d ;;
   let d := connect_valueChanged d in
   Ok (mkAudioDenoiser (noise_slider d) (Some AudioProcessor_init)))%result.

(** [toggle_processing], with [current_data] the selected output device. *)
Definition toggle_processing (current_data : option Z) (d : AudioDenoiser)
  : result AudioDenoiser :=
  match audio_processor d with
  | Some p =>
      if negb (running p) then
        Ok (mkAudioDenoiser (noise_slider d)
              (Some {| running := true;
                       noise_reduction := noise_reduction p;
                       output_device := current_data;
                       prev_buffer := prev_buffer p;
                       buffer_size := buffer_size p;
                       overlap := overlap p |}))
      else Ok (mkAudioDenoiser (noise_slider d) (Some (stop p)))
  | None =>
      Raise (AttributeError "'AudioDenoiser' object has no attribute 'audio_processor'")
  end.

(** ** The devices, the stream set-up of [run], and the window *)

(** One entry of [sd.query_devices()]. *)
Record DeviceInfo : Type := mkDeviceInfo {
  name : string;
  max_input_channels : Z;
  max_output_channels : Z;
  default_samplerate : R
}.

(** [s.startswith(sub)] *)
Fixpoint startswith (sub s : string) : bool :=
  match sub, s with
  | EmptyString, _ => true
  | String _ _, EmptyString => false
  | String a sub', String b s' => Ascii.eqb a b && startswith sub' s'
  end.

(** [sub in s] on strings: [sub] starts at some position of [s]. *)
Fixpoint contains (sub s : string) : bool :=
  startswith sub s
  || match s with
     | EmptyString => false
     | String _ rest => contains sub rest
     end.

(** Line 144: the test that picks the input device. *)
Definition is_virtual_cable (device : DeviceInfo) : bool :=
  contains "BlackHole" (name device) || contains "Soundflower" (name device).

(** Lines 143-146: the first device, from index [i] on, whose name passes
    the test. *)
Fixpoint find_input_device (i : nat) (devices : list DeviceInfo)
  : option nat :=
  match devices with
  | [] => None
  | device :: rest =>
      if is_virtual_cable device then Some i
      else find_input_device (S i) rest
  end.

(** [sd.query_devices(device)]: the entry at that index.  The exception the
    library raises for an index that names no device is a parameter. *)
Definition query_device (query_error : Z -> exn) (devices : list DeviceInfo)
  (device : Z) : result DeviceInfo :=
  if Z.ltb device 0 then Raise (query_error device)
  else
    match nth_error devices (Z.to_nat device) with
    | Some info => Ok info
    | None => Raise (query_error device)
    end.

(** The arguments [run] passes to [sd.Stream]. *)
Record StreamArgs : Type := mkStreamArgs {
  stream_input : nat;
  stream_output : Z;
  samplerate : Z;
  channels : Z;
  blocksize : nat
}.

(** Lines 140-170 of [run]: everything up to the opening of the stream. *)
Definition run_setup (query_error : Z -> exn) (devices : list DeviceInfo)
  (s : AudioProcessor) : result StreamArgs :=
  match find_input_device 0 devices with
  | None => Raise (ValueError "No BlackHole or Soundflower device found.")
  | Some input_device =>
      match output_device s with
      | None => Raise (ValueError "No output device selected.")
      | Some out =>
          (input_info <-
             query_device query_error devices (Z.of_nat input_device) ;;
           output_info <- query_device query_error devices out ;;
           Ok {| stream_input := input_device;
                 stream_output := out;
                 samplerate := 48000;
                 channels := Z.min (max_input_channels input_info)
                                   (max_output_channels output_info);
                 blocksize := buffer_size s |})%result
      end
  end.

(** [str(e)] *)
Definition str (e : exn) : string :=
  match e with
  | ValueError msg => msg
  | TypeError msg => msg
  | AttributeError msg => msg
  end.

Definition with_running (s : AudioProcessor) (b : bool) : AudioProcessor :=
  {| running := b;
     noise_reduction := noise_reduction s;
     output_device := output_device s;
     prev_buffer := prev_buffer s;
     buffer_size := buffer_size s;
     overlap := overlap s |}.

(** [run] up to the stream: the arguments of the stream, or, from the
    handler of lines 175-177, the message emitted through [error_occurred]
    and the processor with its running flag cleared. *)
Definition run_until_stream (query_error : Z -> exn)
  (devices : list DeviceInfo) (s : AudioProcessor)
  : AudioProcessor * (string + StreamArgs) :=
  match run_setup query_error devices s with
  | Ok args => (s, inr args)
  | Raise e => (with_running s false, inl (str e))
  end.

(** A [QComboBox]: the items (text, user data) and the current index,
    which is -1 while there is no item and becomes 0 when the first item is
    added. *)
Record QComboBox : Type := mkQComboBox {
  items : list (string * nat);
  currentIndex : Z
}.

Definition addItem (text : string) (data : nat) (cb : QComboBox) : QComboBox :=
  {| items := items cb ++ [(text, data)];
     currentIndex := match items cb with
                     | [] => 0%Z
                     | _ :: _ => currentIndex cb
                     end |}.

Definition currentData (cb : QComboBox) : option nat :=
  if Z.ltb (currentIndex cb) 0 then None
  else option_map snd (nth_error (items cb) (Z.to_nat (currentIndex cb))).

(** Lines 238-242: [populate_output_devices], from index [i] on. *)
Fixpoint populate_from (i : nat) (devices : list DeviceInfo) (cb : QComboBox)
  : QComboBox :=
  match devices with
  | [] => cb
  | device :: rest =>
      populate_from (S i) rest
        (if Z.ltb 0 (max_output_channels device)
         then addItem (name device) i cb
         else cb)
  end.

Definition populate_output_devices (devices : list DeviceInfo)
  (cb : QComboBox) : QComboBox :=
  populate_from 0 devices cb.

(** The window: the strength slider and the processor, the device list and
    the label of the start/stop button. *)
Record Window : Type := mkWindow {
  core : AudioDenoiser;
  output_combo : QComboBox;
  toggle_button : string
}.

(** [AudioDenoiser.__init__] as a whole: the devices are listed (line 207),
    the slider and the processor are set up, the button reads "Start". *)
Definition Window_init (devices : list DeviceInfo) : result Window :=
  (let combo := populate_output_devices devices (mkQComboBox [] (-1)) in
   d <- AudioDenoiser_init ;;
   Ok (mkWindow d combo "Start"))%result.

(** Lines 265-273: [toggle_processing] with the button it relabels. *)
Definition Window_toggle_processing (w : Window) : result Window :=
  match audio_processor (core w) with
  | Some p =>
      (d <- toggle_processing
              (option_map Z.of_nat (currentData (output_combo w))) (core w) ;;
       Ok (mkWindow d (output_combo w)
             (if negb (running p) then "Stop" else "Start")))%result
  | None =>
      Raise (AttributeError "'AudioDenoiser' object has no attribute 'audio_processor'")
  end.

(** Lines 260-263: [show_error], the slot of [error_occurred]. *)
Definition show_error (message : string) (w : Window) : result Window :=
  match audio_processor (core w) with
  | Some p =>
      Ok (mkWindow
            (mkAudioDenoiser (noise_slider (core w))
               (Some (with_running p false)))
            (output_combo w) "Start")
  | None =>
      Raise (AttributeError "'AudioDenoiser' object has no attribute 'audio_processor'")
  end.

(** A press of the button and what follows in the processor's thread: when
    the press started the processor, [run] begins; if its set-up fails, the
    handler clears the running flag and the message emitted through
    [error_occurred] reaches [show_error].  The second component is what
    [run] came to: nothing when the press stopped the processor. *)
Definition press_button (query_error : Z -> exn) (devices : list DeviceInfo)
  (w : Window) : result (Window * option (string + StreamArgs)) :=
  (w <- Window_toggle_processing w ;;
   match audio_processor (core w) with
   | Some p =>
       if running p then
         match run_until_stream query_error devices p with
         | (p', inr args) =>
             Ok (mkWindow (mkAudioDenoiser (noise_slider (core w)) (Some p'))
                          (output_combo w) (toggle_button w),
                 Some (inr args))
         | (p', inl message) =>
             w' <- show_error message
                     (mkWindow (mkAudioDenoiser (noise_slider (core w))
                                                (Some p'))
                               (output_combo w) (toggle_button w)) ;;
             Ok (w', Some (inl message))
         end
       else Ok (w, None)
   | None =>
       Raise (AttributeError "'AudioDenoiser' object has no attribute 'audio_processor'")
   end)%result.

(** The first device, from index [i] on, with an output channel. *)
Fixpoint first_output (i : nat) (devices : list DeviceInfo) : option nat :=
  match devices with
  | [] => None
  | device :: rest =>
      if Z.ltb 0 (max_output_channels device) then Some i
      else first_output (S i) rest
  end.

(** The items [populate_output_devices] adds, from index [i] on. *)
Fixpoint output_items (i : nat) (devices : list DeviceInfo)
  : list (string * nat) :=
  match devices with
  | [] => []
  | device :: rest =>
      if Z.ltb 0 (max_output_channels device)
      then (name device, i) :: output_items (S i) rest
      else output_items (S i) rest
  end.

(** A list of devices for the examples. *)
Definition example_devices : list DeviceInfo :=
  [ mkDeviceInfo "Built-in Microphone" 2 0 48000;
    mkDeviceInfo "Built-in Output" 0 2 48000;
    mkDeviceInfo "BlackHole 2ch" 2 2 48000 ].

(** [sub] occurs in [s]. *)
Definition occurs_in (sub s : string) : Prop :=
  exists pre post, s = (pre ++ sub ++ post)%string.

(** A name that names a virtual cable. *)
Definition virtual_cable_name (s : string) : Prop :=
  occurs_in "BlackHole" s \/ occurs_in "Soundflower" s.

(** ** The run loop, seen from outside the callback *)

(** Lines 165-173: while the stream is open the transport delivers blocks
    to the callback; the loop of [run] wakes every 100 ms, tests
    [self.running] and leaves the stream once the flag is cleared. *)
Record Session : Type := mkSession {
  processor : AudioProcessor;
  stream_open : bool
}.

Inductive Event : Type :=
| Block (indata outdata0 : array2 R)
| Wake
| PressStop
| PressStart (current_data : option Z).

Definition step (e : Event) (ss : Session) : Session :=
  match e with
  | Block indata outdata0 =>
      (* the callback, called by the transport while the stream is open *)
      if stream_open ss
      then mkSession (self (fst (callback (processor ss) indata outdata0)))
                     true
      else ss
  | Wake =>
      (* [sd.sleep(100)] returns and [while self.running] is tested *)
      if stream_open ss && negb (running (processor ss))
      then mkSession (processor ss) false
      else ss
  | PressStop =>
      (* lines 271-272: [self.audio_processor.stop()] *)
      mkSession (stop (processor ss)) (stream_open ss)
  | PressStart current_data =>
      (* lines 266-269 on a stopped processor, [run] reaching the stream *)
      if negb (running (processor ss))
      then mkSession {| running := true;
                        noise_reduction := noise_reduction (processor ss);
                        output_device := current_data;
                        prev_buffer := prev_buffer (processor ss);
                        buffer_size := buffer_size (processor ss);
                        overlap := overlap (processor ss) |} true
      else ss
  end.

Fixpoint run_events (es : list Event) (ss : Session) : Session :=
  match es with
  | [] => ss
  | e :: rest => run_events rest (step e ss)
  end.

(** ** Closed forms used in the statements below *)

(** Entry [i] of a vector smoothed by the kernel [0, 1/4, 1/2, 1/4, 0], with
    zeros beyond both ends. *)
Definition smooth_at (a : list R) (i : nat) : R :=
  1/4 * nth (i + 1) a 0 + 1/2 * nth i a 0
  + 1/4 * match i with O => 0 | S p => nth p a 0 end.

Definition smoothed (a : list R) : list R :=
  map (smooth_at a) (seq 0 (length a)).

(** The keep-mask the gate computes for a channel. *)
Definition gate_mask (x : list R) (strength : R) : list bool :=
  keep_mask (map np.abs (map (np.fft.dft_bin x) (seq 0 (length x / 2 + 1))))
            strength.

(** The spectrum of a channel after the smoothed mask has been applied. *)
Definition gated_spectrum (x : list R) (strength : R) : list cplx :=
  let F := map (np.fft.dft_bin x) (seq 0 (length x / 2 + 1)) in
  let sm := smoothed (map b2r (gate_mask x strength)) in
  map (fun k => cscale (nth k F (0, 0)) (nth k sm 0)) (seq 0 (length F)).

(** The weight of a bin in the inverse real transform. *)
Definition bin_weight (m k : nat) : R :=
  if Nat.eqb k 0 || Nat.eqb k m then 1 else 2.

(** A block of silence. *)
Definition silence (r c : nat) : array2 R := tabulate r c (fun _ _ => 0).

(** A unit impulse of eight samples. *)
Definition impulse8 : list R := [1; 0; 0; 0; 0; 0; 0; 0].

(** One channel of eight frames holding the unit impulse. *)
Definition impulse_block : array2 R := newaxis impulse8.

(** A processor whose [overlap] attribute has been set to 0.1. *)
Definition overlap_tenth : AudioProcessor :=
  {| running := false;
     noise_reduction := 5 / 10;
     output_device := None;
     prev_buffer := None;
     buffer_size := 8;
     overlap := 1 / 10 |}.

(** A running processor with its stream open. *)
Definition running_session : Session :=
  mkSession {| running := true;
               noise_reduction := 5 / 10;
               output_device := Some 1%Z;
               prev_buffer := None;
               buffer_size := 8;
               overlap := 5 / 10 |} true.

(** The blended block: the first [k] frames mix the current block, ramped
    up, with the last [k] frames of the previous block, ramped down. *)
Definition blended (k : nat) (cur prev : array2 R) : array2 R :=
  tabulate (nrows cur) (ncols cur)
    (fun i j =>
       if Nat.ltb i k
       then get 0 cur i j * np.linspace_at 0 1 k i
            + get 0 prev (nrows cur - k + i) j * np.linspace_at 1 0 k i
       else get 0 cur i j).

(** The previous block the crossfade reads: the retained one, or silence of
    the shape of the current block when none is retained. *)
Definition prev_or_zero (s : AudioProcessor) (indata : array2 R) : array2 R :=
  match prev_buffer s with
  | Some p => p
  | None => np.zeros_like indata
  end.

(** The gated and crossfaded block of the first section, before it is
    normalised. *)
Definition crossfaded_block (s : AudioProcessor) (indata : array2 R)
  : result (array2 R) :=
  (audio_data <- process_channels (noise_reduction s)
                   (seq 0 (ncols indata)) indata ;;
   crossfade (overlap s) audio_data (prev_or_zero s indata))%result.

(** The block the processor retains after the first section: the crossfaded
    block when the section got that far, else the previous block as the lazy
    initialisation left it. *)
Definition retained (s : AudioProcessor) (indata : array2 R) : array2 R :=
  match crossfaded_block s indata with
  | Ok cf => cf
  | Raise _ => prev_or_zero s indata
  end.

(** * Properties *)

(** ** Lists and arrays *)

Ltac list_eq :=
  repeat (apply (f_equal2 (@cons R)); [lra|]); reflexivity.

Lemma nth_map_seq {A : Type} (f : nat -> A) (n i : nat) (d : A) :
  (i < n)%nat -> nth i (map f (seq 0 n)) d = f i.
Proof.
  intros Hi.
  rewrite (nth_indep _ d (f 0%nat)) by (rewrite length_map, length_seq; exact Hi).
  rewrite map_nth, seq_nth by exact Hi.
  reflexivity.
Qed.

Lemma map_nth_seq {A : Type} (l : list A) (d : A) :
  map (fun i => nth i l d) (seq 0 (length l)) = l.
Proof.
  apply nth_ext with (d := d) (d' := d).
  - now rewrite length_map, length_seq.
  - intros n Hn. rewrite length_map, length_seq in Hn.
    now rewrite (nth_map_seq (fun i => nth i l d)) by exact Hn.
Qed.

Lemma get_tabulate {A : Type} (d : A) (r c : nat) (f : nat -> nat -> A) i j :
  (i < r)%nat -> (j < c)%nat -> get d (tabulate r c f) i j = f i j.
Proof.
  intros Hi Hj. unfold get, tabulate. cbn [rows].
  rewrite (nth_map_seq (fun i => map (fun j => f i j) (seq 0 c))) by exact Hi.
  now rewrite (nth_map_seq (fun j => f i j)) by exact Hj.
Qed.

Lemma tabulate_ext {A : Type} (r c : nat) (f g : nat -> nat -> A) :
  (forall i j, (i < r)%nat -> (j < c)%nat -> f i j = g i j) ->
  tabulate r c f = tabulate r c g.
Proof.
  intros H. unfold tabulate. f_equal.
  apply map_ext_in. intros i Hi. apply in_seq in Hi.
  apply map_ext_in. intros j Hj. apply in_seq in Hj.
  apply H; lia.
Qed.

Lemma wf_tabulate {A : Type} (r c : nat) (f : nat -> nat -> A) :
  wf (tabulate r c f).
Proof.
  unfold wf, tabulate. cbn [rows nrows ncols]. split.
  - now rewrite length_map, length_seq.
  - apply Forall_forall. intros x Hx. apply in_map_iff in Hx.
    destruct Hx as [i [<- _]]. now rewrite length_map, length_seq.
Qed.

Lemma tabulate_get {A : Type} (d : A) (a : array2 A) :
  wf a -> tabulate (nrows a) (ncols a) (get d a) = a.
Proof.
  destruct a as [r c rs]. unfold wf, tabulate, get. cbn [rows nrows ncols].
  intros [Hr Hc]. f_equal.
  apply nth_ext with (d := []) (d' := []).
  - now rewrite length_map, length_seq.
  - intros n Hn. rewrite length_map, length_seq in Hn.
    rewrite (nth_map_seq (fun i => map (fun j => nth j (nth i rs []) d) (seq 0 c)))
      by exact Hn.
    rewrite Forall_forall in Hc.
    rewrite <- (Hc (nth n rs [])) by (apply nth_In; lia).
    apply map_nth_seq.
Qed.

Lemma wfb_wf {A : Type} (a : array2 A) : wfb a = true -> wf a.
Proof.
  unfold wfb, wf. intros H. apply andb_prop in H. destruct H as [H1 H2].
  split.
  - now apply Nat.eqb_eq.
  - apply Forall_forall. intros x Hx.
    rewrite forallb_forall in H2. apply Nat.eqb_eq. now apply H2.
Qed.

Lemma rsum_zero (l : list R) : Forall (fun x => x = 0) l -> rsum l = 0.
Proof.
  induction 1 as [|x l Hx _ IH]; cbn [rsum fold_right].
  - reflexivity.
  - unfold rsum in IH. rewrite IH, Hx. lra.
Qed.

Lemma rsum_map_zero {A : Type} (f : A -> R) (l : list A) :
  (forall x, In x l -> f x = 0) -> rsum (map f l) = 0.
Proof.
  intros H. apply rsum_zero. apply Forall_forall.
  intros y Hy. apply in_map_iff in Hy. destruct Hy as [x [<- Hx]]. now apply H.
Qed.

Lemma nth_repeat_0 (n i : nat) : nth i (repeat 0 n) 0 = 0.
Proof.
  destruct (Nat.lt_ge_cases i n) as [H|H].
  - now apply nth_repeat_lt.
  - apply nth_overflow. now rewrite repeat_length.
Qed.

Lemma map_seq_const {A : Type} (f : nat -> A) (a : A) (s n : nat) :
  (forall i, (s <= i < s + n)%nat -> f i = a) -> map f (seq s n) = repeat a n.
Proof.
  revert s. induction n as [|n IH]; intros s H; cbn [seq map repeat].
  - reflexivity.
  - f_equal.
    + apply H. lia.
    + apply IH. intros i Hi. apply H. lia.
Qed.

(** ** The smoothing kernel *)

Lemma hanning_5 : np.hanning 5 = [0; 1/2; 1; 1/2; 0].
Proof.
  unfold np.hanning. cbn [map seq].
  replace (PI * IZR (1 - Z.of_nat 5 + 2 * Z.of_nat 0) / INR (5 - 1)) with (- PI)
    by (simpl; lra).
  replace (PI * IZR (1 - Z.of_nat 5 + 2 * Z.of_nat 1) / INR (5 - 1))
    with (- (PI / 2)) by (simpl; lra).
  replace (PI * IZR (1 - Z.of_nat 5 + 2 * Z.of_nat 2) / INR (5 - 1)) with 0
    by (simpl; lra).
  replace (PI * IZR (1 - Z.of_nat 5 + 2 * Z.of_nat 3) / INR (5 - 1))
    with (PI / 2) by (simpl; lra).
  replace (PI * IZR (1 - Z.of_nat 5 + 2 * Z.of_nat 4) / INR (5 - 1)) with PI
    by (simpl; lra).
  rewrite !cos_neg, cos_PI, cos_PI2, cos_0.
  list_eq.
Qed.

Lemma smoothing_kernel_eq : smoothing_kernel = [0; 1/4; 1/2; 1/4; 0].
Proof.
  unfold smoothing_kernel. rewrite hanning_5. cbn [map rsum fold_right].
  list_eq.
Qed.

(** ** Convolution *)

Lemma convolve_same_length (a v l : list R) :
  np.convolve_same (np.A1 a) (np.A1 v) = Ok l ->
  length l = Nat.max (length a) (length v).
Proof.
  unfold np.convolve_same. cbn [np.len].
  destruct (Nat.ltb_spec (length a) (length v)) as [H|H]; cbn [np.len];
    repeat match goal with
           | |- context [Nat.eqb ?x 0] => destruct (Nat.eqb x 0)
           end; try discriminate;
    intros E; injection E as <-; rewrite length_map, length_seq; lia.
Qed.

Lemma convolve_same_A2 (m : array2 R) (v : np.ndarray) :
  exists e, np.convolve_same (np.A2 m) v = Raise e.
Proof.
  unfold np.convolve_same.
  destruct (Nat.ltb (np.len (np.A2 m)) (np.len v));
    repeat match goal with
           | |- context [Nat.eqb ?x 0] => destruct (Nat.eqb x 0)
           end; try (eexists; reflexivity);
    destruct v; eexists; reflexivity.
Qed.

Lemma conv_at_kernel (a : list R) (i : nat) :
  np.conv_at a smoothing_kernel (i + (length smoothing_kernel - 1
                                      - length smoothing_kernel / 2))
  = smooth_at a i.
Proof.
  rewrite smoothing_kernel_eq. unfold np.conv_at, smooth_at.
  cbn [length Nat.sub Nat.div Nat.divmod fst seq map nth rsum fold_right].
  replace (i + 2)%nat with (S (S i)) by lia.
  replace (i + 1)%nat with (S i) by lia.
  cbn [Nat.leb Nat.sub].
  destruct i as [|[|p]]; cbn [Nat.leb Nat.sub]; lra.
Qed.

Lemma convolve_same_kernel (a : list R) :
  (5 <= length a)%nat ->
  np.convolve_same (np.A1 a) (np.A1 smoothing_kernel) = Ok (smoothed a).
Proof.
  intros H. unfold np.convolve_same. cbn [np.len].
  assert (Hk : length smoothing_kernel = 5%nat)
    by (rewrite smoothing_kernel_eq; reflexivity).
  destruct (Nat.ltb_spec (length a) (length smoothing_kernel)) as [H1|H1];
    [lia|].
  cbn [np.len].
  destruct (Nat.eqb_spec (length a) 0) as [H2|H2]; [lia|].
  destruct (Nat.eqb_spec (length smoothing_kernel) 0) as [H3|H3]; [lia|].
  unfold smoothed. f_equal. apply map_ext. intros i. apply conv_at_kernel.
Qed.

(** ** The spectral gate *)

Lemma half_bounds (n : nat) : (2 * (n / 2) <= n < 2 * (n / 2) + 2)%nat.
Proof.
  pose proof (Nat.div_mod_eq n 2) as H.
  pose proof (Nat.mod_upper_bound n 2 ltac:(lia)) as H'.
  lia.
Qed.

Lemma length_keep_mask (m : list R) (s : R) :
  length (keep_mask m s) = length m.
Proof. unfold keep_mask. now rewrite length_map. Qed.

Lemma length_smoothed (a : list R) : length (smoothed a) = length a.
Proof. unfold smoothed. now rewrite length_map, length_seq. Qed.

Lemma length_gated_spectrum (x : list R) (s : R) :
  length (gated_spectrum x s) = (length x / 2 + 1)%nat.
Proof.
  unfold gated_spectrum. now rewrite !length_map, !length_seq.
Qed.

(** For at least eight samples the gate returns, and its result is the
    inverse transform of the gated spectrum: [2 * (N / 2)] samples. *)
Lemma gate_eq (x : list R) (s : R) :
  (8 <= length x)%nat ->
  gate x s =
  Ok (map (np.fft.idft_sample (gated_spectrum x s) (2 * (length x / 2)))
          (seq 0 (2 * (length x / 2)))).
Proof.
  intros HN. pose proof (half_bounds (length x)) as Hh.
  unfold gate, np.fft.rfft.
  destruct (Nat.ltb_spec (length x) 1) as [H|_]; [lia|].
  cbn [rbind].
  set (F := map (np.fft.dft_bin x) (seq 0 (length x / 2 + 1))).
  assert (HF : length F = (length x / 2 + 1)%nat)
    by (unfold F; now rewrite length_map, length_seq).
  set (mask := keep_mask (map np.abs F) s).
  assert (Hm : length (map b2r mask) = (length x / 2 + 1)%nat)
    by (unfold mask; now rewrite length_map, length_keep_mask, length_map).
  rewrite convolve_same_kernel by lia.
  cbn [rbind]. unfold imul_mask.
  rewrite length_smoothed, Hm, HF. unfold fits.
  rewrite Nat.eqb_refl. cbn [orb rbind].
  destruct (Nat.eqb_spec (length x / 2 + 1) 1) as [H|_]; [lia|].
  replace (map (fun k => cscale (nth k F (0, 0))
                           (nth k (smoothed (map b2r mask)) 0))
               (seq 0 (length x / 2 + 1)))
    with (gated_spectrum x s)
    by (unfold gated_spectrum, gate_mask; fold F; fold mask; now rewrite HF).
  unfold np.fft.irfft. rewrite length_gated_spectrum.
  replace (2 * (length x / 2 + 1 - 1))%nat with (2 * (length x / 2))%nat by lia.
  destruct (Nat.ltb_spec (2 * (length x / 2)) 1) as [H|_]; [lia|].
  cbn [rbind]. rewrite length_map, length_seq.
  destruct (Nat.eqb_spec (2 * (length x / 2)) (length x)) as [_|Hne].
  - reflexivity.
  - f_equal. apply firstn_all2. rewrite length_map, length_seq. lia.
Qed.

Lemma gate_length (x : list R) (s : R) :
  (8 <= length x)%nat ->
  exists out, gate x s = Ok out /\ length out = (2 * (length x / 2))%nat.
Proof.
  intros H. eexists. split.
  - now apply gate_eq.
  - now rewrite length_map, length_seq.
Qed.

(** Below eight samples the spectrum has fewer than five bins, the smoothed
    mask has five entries, and [freq_data *= smoothed_mask] raises. *)
Lemma gate_small (x : list R) (s : R) :
  (length x < 8)%nat -> exists e, gate x s = Raise e.
Proof.
  intros HN. pose proof (half_bounds (length x)) as Hh.
  unfold gate, np.fft.rfft.
  destruct (Nat.ltb_spec (length x) 1) as [H|H]; [eexists; reflexivity|].
  cbn [rbind].
  set (F := map (np.fft.dft_bin x) (seq 0 (length x / 2 + 1))).
  assert (HF : length F = (length x / 2 + 1)%nat)
    by (unfold F; now rewrite length_map, length_seq).
  set (mask := keep_mask (map np.abs F) s).
  assert (Hm : length (map b2r mask) = (length x / 2 + 1)%nat)
    by (unfold mask; now rewrite length_map, length_keep_mask, length_map).
  destruct (np.convolve_same (np.A1 (map b2r mask)) (np.A1 smoothing_kernel))
    as [sm|e] eqn:E; [|eexists; reflexivity].
  apply convolve_same_length in E.
  rewrite Hm, smoothing_kernel_eq in E. cbn [length] in E.
  cbn [rbind]. unfold imul_mask, fits. rewrite E, HF.
  destruct (Nat.eqb_spec (Nat.max (length x / 2 + 1) 5) (length x / 2 + 1));
    [lia|].
  destruct (Nat.eqb_spec (Nat.max (length x / 2 + 1) 5) 1); [lia|].
  cbn [orb rbind]. eexists; reflexivity.
Qed.

(** ** Silence through the gate *)

Lemma dft_bin_silence (n k : nat) : np.fft.dft_bin (repeat 0 n) k = (0, 0).
Proof.
  unfold np.fft.dft_bin.
  rewrite !rsum_map_zero by (intros t _; rewrite nth_repeat_0; lra).
  now rewrite Ropp_0.
Qed.

Lemma abs_zero : np.abs (0, 0) = 0.
Proof.
  unfold np.abs. cbn [fst snd].
  replace (0 * 0 + 0 * 0) with 0 by lra. apply sqrt_0.
Qed.

Lemma mean_zero (m : nat) : np.mean (repeat 0 m) = 0.
Proof.
  unfold np.mean. rewrite rsum_zero.
  - unfold Rdiv. apply Rmult_0_l.
  - apply Forall_forall. intros x Hx. now apply repeat_spec in Hx.
Qed.

Lemma gtb_irrefl (x : R) : gtb x x = false.
Proof. unfold gtb. destruct (Rlt_dec x x); [lra|reflexivity]. Qed.

Lemma magnitudes_silence (n : nat) :
  map np.abs (map (np.fft.dft_bin (repeat 0 n)) (seq 0 (n / 2 + 1)))
  = repeat 0 (n / 2 + 1).
Proof.
  rewrite map_map. apply map_seq_const.
  intros k _. now rewrite dft_bin_silence, abs_zero.
Qed.

Lemma gate_mask_silence (n : nat) (s : R) :
  gate_mask (repeat 0 n) s = repeat false (n / 2 + 1).
Proof.
  unfold gate_mask. rewrite repeat_length, magnitudes_silence.
  unfold keep_mask. rewrite mean_zero, Rmult_0_l.
  rewrite map_repeat. now rewrite gtb_irrefl.
Qed.

Lemma smooth_at_silence (m i : nat) : smooth_at (repeat 0 m) i = 0.
Proof.
  unfold smooth_at. rewrite !nth_repeat_0.
  destruct i; rewrite ?nth_repeat_0; lra.
Qed.

Lemma nth_gated_spectrum_silence (n k : nat) (s : R) :
  nth k (gated_spectrum (repeat 0 n) s) (0, 0) = (0, 0).
Proof.
  destruct (Nat.lt_ge_cases k (n / 2 + 1)) as [H|H].
  - unfold gated_spectrum. rewrite length_map, length_seq, repeat_length.
    rewrite (nth_map_seq
               (fun k => cscale (nth k (map (np.fft.dft_bin (repeat 0 n))
                                           (seq 0 (n / 2 + 1))) (0, 0))
                           (nth k (smoothed (map b2r
                                     (gate_mask (repeat 0 n) s))) 0)))
      by exact H.
    rewrite (nth_map_seq (np.fft.dft_bin (repeat 0 n))) by exact H.
    rewrite dft_bin_silence. unfold cscale. cbn [fst snd].
    now rewrite !Rmult_0_l.
  - apply nth_overflow. now rewrite length_gated_spectrum, repeat_length.
Qed.

Lemma idft_sample_silence (X : list cplx) (n j : nat) :
  (forall k, nth k X (0, 0) = (0, 0)) -> np.fft.idft_sample X n j = 0.
Proof.
  intros HX. unfold np.fft.idft_sample.
  rewrite rsum_map_zero.
  - unfold Rdiv. apply Rmult_0_l.
  - intros k _. rewrite HX. cbn [fst snd].
    destruct (Nat.eqb k 0 || Nat.eqb k (n / 2)); lra.
Qed.

Lemma even_half (n : nat) : Nat.even n = true -> (2 * (n / 2))%nat = n.
Proof.
  intros H. apply Nat.even_spec in H. destruct H as [k ->].
  pose proof (half_bounds (2 * k)). lia.
Qed.

Lemma odd_half (n : nat) : Nat.odd n = true -> (2 * (n / 2))%nat = (n - 1)%nat.
Proof.
  intros H. apply Nat.odd_spec in H. destruct H as [k ->].
  pose proof (half_bounds (2 * k + 1)). lia.
Qed.

(** Silence of at least eight samples comes back as [2 * (N / 2)] samples
    of silence. *)
Lemma gate_silence (n : nat) (s : R) :
  (8 <= n)%nat -> gate (repeat 0 n) s = Ok (repeat 0 (2 * (n / 2))).
Proof.
  intros H. rewrite gate_eq by (now rewrite repeat_length).
  rewrite repeat_length. f_equal. apply map_seq_const.
  intros j _. apply idft_sample_silence.
  intros k. apply nth_gated_spectrum_silence.
Qed.

(** ** A unit impulse through the gate at strength 0 *)

Lemma dft_bin_impulse8 (k : nat) : np.fft.dft_bin impulse8 k = (1, 0).
Proof.
  unfold np.fft.dft_bin, impulse8.
  cbn [length seq map nth rsum fold_right].
  change (INR 0) with 0. unfold Rdiv.
  rewrite Rmult_0_r, Rmult_0_l, cos_0, sin_0.
  f_equal; lra.
Qed.

Lemma abs_one : np.abs (1, 0) = 1.
Proof.
  unfold np.abs. cbn [fst snd].
  replace (1 * 1 + 0 * 0) with 1 by lra. apply sqrt_1.
Qed.

Lemma gtb_pos (x : R) : 0 < x -> gtb x 0 = true.
Proof. intros H. unfold gtb. destruct (Rlt_dec 0 x); [reflexivity|lra]. Qed.

Lemma gate_mask_impulse8 : gate_mask impulse8 0 = repeat true 5.
Proof.
  unfold gate_mask, keep_mask. rewrite Rmult_0_r.
  change (length impulse8 / 2 + 1)%nat with 5%nat.
  cbn [seq map]. rewrite !dft_bin_impulse8, abs_one.
  rewrite gtb_pos by lra. reflexivity.
Qed.

Lemma smoothed_ones5 : smoothed (map b2r (repeat true 5)) = [3/4; 1; 1; 1; 3/4].
Proof.
  unfold smoothed, smooth_at.
  cbn [repeat map b2r length seq nth Nat.add]. list_eq.
Qed.

Lemma gated_spectrum_impulse8 :
  gated_spectrum impulse8 0 = [(3/4, 0); (1, 0); (1, 0); (1, 0); (3/4, 0)].
Proof.
  unfold gated_spectrum. rewrite gate_mask_impulse8, smoothed_ones5.
  change (length impulse8 / 2 + 1)%nat with 5%nat.
  cbn [seq map length nth]. rewrite !dft_bin_impulse8.
  unfold cscale. cbn [fst snd].
  repeat (apply (f_equal2 (@cons cplx)); [f_equal; lra|]). reflexivity.
Qed.

Lemma idft_sample_impulse8_0 :
  np.fft.idft_sample (gated_spectrum impulse8 0) 8 0 = 15 / 16.
Proof.
  rewrite gated_spectrum_impulse8. unfold np.fft.idft_sample.
  change (8 / 2 + 1)%nat with 5%nat. change (8 / 2)%nat with 4%nat.
  cbn [seq map nth Nat.eqb orb fst snd rsum fold_right].
  change (INR 0) with 0. unfold Rdiv.
  rewrite !Rmult_0_r, !Rmult_0_l, cos_0, ?sin_0.
  change (INR 8) with (1 + 1 + 1 + 1 + 1 + 1 + 1 + 1). lra.
Qed.

Lemma gate_impulse8_first :
  exists out, gate impulse8 0 = Ok out /\ nth 0 out 0 = 15 / 16.
Proof.
  eexists. split.
  - apply gate_eq. cbn [impulse8 length]. lia.
  - change (2 * (length impulse8 / 2))%nat with 8%nat.
    rewrite (nth_map_seq (np.fft.idft_sample (gated_spectrum impulse8 0) 8))
      by lia.
    apply idft_sample_impulse8_0.
Qed.

(** ** The crossfade *)

Lemma bget_tabulate {A : Type} (d : A) (r c : nat) (f : nat -> nat -> A) i j :
  (i < r)%nat -> (j < c)%nat -> bget d (tabulate r c f) i j = f i j.
Proof.
  intros Hi Hj. unfold bget. cbn [nrows ncols tabulate].
  destruct (Nat.eqb_spec r 1) as [Hr|Hr];
    destruct (Nat.eqb_spec c 1) as [Hc|Hc];
    try (assert (i = 0%nat) as -> by lia);
    try (assert (j = 0%nat) as -> by lia);
    apply get_tabulate; lia.
Qed.

Lemma bget_newaxis (v : list R) (i j : nat) :
  (i < length v)%nat -> bget 0 (newaxis v) i j = nth i v 0.
Proof.
  intros Hi. unfold bget, newaxis. cbn [nrows ncols tabulate Nat.eqb].
  destruct (Nat.eqb_spec (length v) 1) as [Hr|Hr];
    try (assert (i = 0%nat) as -> by lia);
    now rewrite get_tabulate by lia.
Qed.

Lemma linspace_nat (a b : R) (k : nat) :
  np.linspace a b (Z.of_nat k) = Ok (map (np.linspace_at a b k) (seq 0 k)).
Proof.
  unfold np.linspace.
  destruct (Z.ltb_spec (Z.of_nat k) 0) as [H|_]; [lia|].
  now rewrite Nat2Z.id.
Qed.

Lemma fits_refl (n : nat) : fits n n = true.
Proof. unfold fits. now rewrite Nat.eqb_refl. Qed.

Lemma fits_one (n : nat) : fits 1 n = true.
Proof. unfold fits. cbn [Nat.eqb]. apply orb_true_r. Qed.

Lemma bdim_refl (n : nat) : bdim n n = Some n.
Proof. unfold bdim. now rewrite Nat.eqb_refl. Qed.

Lemma bdim_one_r (n : nat) : bdim n 1 = Some n.
Proof.
  unfold bdim. destruct (Nat.eqb_spec n 1) as [->|H]; [reflexivity|].
  destruct (Nat.eqb_spec n 1); [contradiction|]. reflexivity.
Qed.

Lemma crossfade_blend (ov : R) (cur prev : array2 R) (k : nat) :
  fade_len (nrows cur) ov = Z.of_nat k ->
  (1 <= k <= nrows cur)%nat ->
  same_shape prev cur = true ->
  crossfade ov cur prev = Ok (blended k cur prev).
Proof.
  intros Hfl Hk Hs. unfold same_shape in Hs.
  apply andb_prop in Hs. destruct Hs as [Hr Hc].
  apply Nat.eqb_eq in Hr. apply Nat.eqb_eq in Hc.
  unfold crossfade. rewrite Hfl, !linspace_nat. cbn [rbind].
  rewrite Nat2Z.id.
  set (fin := map (np.linspace_at 0 1 k) (seq 0 k)).
  set (fout := map (np.linspace_at 1 0 k) (seq 0 k)).
  assert (Hfin : length fin = k) by (unfold fin; now rewrite length_map, length_seq).
  assert (Hfout : length fout = k)
    by (unfold fout; now rewrite length_map, length_seq).
  unfold islice_op at 1.
  replace (nrows (newaxis fin)) with k by (now cbn [newaxis tabulate nrows]).
  replace (ncols (newaxis fin)) with 1%nat by reflexivity.
  replace (Nat.min k (nrows cur)) with k by lia.
  rewrite fits_refl, fits_one. cbn [andb rbind].
  unfold bop, last_rows.
  destruct (Nat.eqb_spec k 0) as [H0|_]; [lia|].
  replace (nrows (newaxis fout)) with k by (now cbn [newaxis tabulate nrows]).
  replace (ncols (newaxis fout)) with 1%nat by reflexivity.
  cbn [nrows ncols tabulate].
  replace (nrows prev - (nrows prev - k))%nat with k by lia.
  rewrite bdim_refl, bdim_one_r. cbn [rbind].
  unfold islice_op. cbn [nrows ncols tabulate].
  replace (Nat.min k (nrows cur)) with k by lia.
  rewrite Hc, !fits_refl. cbn [andb].
  f_equal. unfold blended. apply tabulate_ext. intros i j Hi Hj.
  rewrite (get_tabulate 0 (nrows cur) (ncols cur)) by lia.
  destruct (Nat.ltb_spec i k) as [Hik|Hik]; [|reflexivity].
  rewrite (bget_tabulate 0 k (ncols cur)) by lia.
  rewrite (bget_tabulate 0 k (ncols cur)) by lia.
  rewrite !bget_newaxis by lia.
  unfold fin, fout.
  rewrite !(nth_map_seq (np.linspace_at _ _ k)) by lia.
  now rewrite Hr.
Qed.

(** With no frame to fade and at most one frame in the block, nothing is
    changed: [prev_buffer[-0:]] is the whole previous block, and one frame
    (or none) broadcasts against the empty ramp. *)
Lemma crossfade_noop (ov : R) (cur prev : array2 R) :
  fade_len (nrows cur) ov = 0%Z ->
  (nrows cur <= 1)%nat ->
  same_shape prev cur = true ->
  crossfade ov cur prev = Ok (tabulate (nrows cur) (ncols cur) (get 0 cur)).
Proof.
  intros Hfl Hk Hs. unfold same_shape in Hs.
  apply andb_prop in Hs. destruct Hs as [Hr Hc].
  apply Nat.eqb_eq in Hr. apply Nat.eqb_eq in Hc.
  unfold crossfade. rewrite Hfl.
  change (np.linspace 0 1 0) with (Ok (@nil R)).
  change (np.linspace 1 0 0) with (Ok (@nil R)).
  cbn [rbind Z.to_nat]. unfold islice_op at 1.
  cbn [newaxis length nrows ncols tabulate Nat.min].
  rewrite fits_refl, fits_one. cbn [andb rbind].
  unfold bop, last_rows. cbn [Nat.eqb nrows ncols tabulate newaxis length].
  rewrite Nat.sub_0_r, Hr, bdim_one_r.
  assert (Hb : bdim (nrows cur) 0 = Some 0%nat).
  { destruct (nrows cur) as [|[|n]]; [reflexivity|reflexivity|lia]. }
  rewrite Hb. cbn [rbind]. unfold islice_op.
  cbn [nrows ncols tabulate Nat.min]. rewrite Hc, !fits_refl. cbn [andb].
  f_equal. apply tabulate_ext. intros i j Hi Hj.
  cbn [Nat.ltb Nat.leb].
  now rewrite (get_tabulate 0 (nrows cur) (ncols cur)) by lia.
Qed.

Lemma fade_len_half (n : nat) : fade_len n (5 / 10) = Z.of_nat (n / 2).
Proof.
  unfold fade_len, py_int.
  pose proof (pos_INR n) as Hn.
  pose proof (half_bounds n) as [Hlo Hhi].
  apply le_INR in Hlo. rewrite mult_INR in Hlo.
  assert (Hhi' : (n + 1 <= 2 * (n / 2) + 2)%nat) by lia.
  apply le_INR in Hhi'. rewrite !plus_INR, mult_INR in Hhi'.
  change (INR 2) with 2 in *. change (INR 1) with 1 in *.
  destruct (Rle_dec 0 (INR n * (5 / 10))) as [_|H]; [|lra].
  symmetry. apply Int_part_spec. rewrite <- INR_IZR_INZ. lra.
Qed.

Lemma py_int_small (x : R) : 0 <= x < 1 -> py_int x = 0%Z.
Proof.
  intros H. unfold py_int.
  destruct (Rle_dec 0 x) as [_|H']; [|lra].
  symmetry. apply Int_part_spec. lra.
Qed.

Lemma islice_op_frame (f : R -> R -> R) (a b out : array2 R) (k : nat) :
  islice_op f a k b = Ok out ->
  nrows out = nrows a /\ ncols out = ncols a /\
  forall i j, (i < nrows a)%nat -> (j < ncols a)%nat -> (k <= i)%nat ->
              get 0 out i j = get 0 a i j.
Proof.
  unfold islice_op.
  destruct (fits (nrows b) (Nat.min k (nrows a)) && fits (ncols b) (ncols a));
    [|discriminate].
  intros E. injection E as <-. cbn [nrows ncols tabulate].
  repeat split. intros i j Hi Hj Hk.
  rewrite get_tabulate by assumption.
  destruct (Nat.ltb_spec i (Nat.min k (nrows a))); [lia|reflexivity].
Qed.

(** Whenever the crossfade returns, whatever the overlap and the shapes, the
    block keeps its shape and its frames from [fade_len] on. *)
Lemma crossfade_frame (ov : R) (cur prev out : array2 R) :
  crossfade ov cur prev = Ok out ->
  nrows out = nrows cur /\ ncols out = ncols cur /\
  forall i j, (i < nrows cur)%nat -> (j < ncols cur)%nat ->
              (fade_len (nrows cur) ov <= Z.of_nat i)%Z ->
              get 0 out i j = get 0 cur i j.
Proof.
  unfold crossfade.
  destruct (np.linspace 0 1 (fade_len (nrows cur) ov)) as [fin|] eqn:E1;
    [|discriminate].
  destruct (np.linspace 1 0 (fade_len (nrows cur) ov)) as [fout|] eqn:E2;
    [|discriminate].
  cbn [rbind].
  destruct (islice_op Rmult cur _ _) as [a1|] eqn:E3; [|discriminate].
  cbn [rbind].
  destruct (bop Rmult _ _) as [t|] eqn:E4; [|discriminate].
  cbn [rbind]. intros E5.
  apply islice_op_frame in E3. destruct E3 as (Hr1 & Hc1 & H1).
  apply islice_op_frame in E5. destruct E5 as (Hr2 & Hc2 & H2).
  repeat split; try congruence.
  intros i j Hi Hj Hk.
  rewrite H2 by lia. apply H1; lia.
Qed.

(** For the overlap the processor is created with, and a previous block of
    the shape of the current one, the crossfade always returns. *)
Lemma crossfade_returns (cur prev : array2 R) :
  same_shape prev cur = true ->
  exists out, crossfade (overlap AudioProcessor_init) cur prev = Ok out.
Proof.
  intros Hs. cbn [overlap AudioProcessor_init].
  pose proof (half_bounds (nrows cur)) as Hh.
  destruct (Nat.le_gt_cases (nrows cur / 2) 0) as [H|H].
  - eexists. apply crossfade_noop.
    + rewrite fade_len_half. lia.
    + lia.
    + exact Hs.
  - eexists. apply (crossfade_blend _ _ _ (nrows cur / 2)).
    + apply fade_len_half.
    + lia.
    + exact Hs.
Qed.

(** With another overlap, a block of two or more frames can have nothing to
    fade; then [prev_buffer[-0:]] is the whole previous block, which does
    not broadcast against the empty ramp, and the crossfade raises. *)
Lemma crossfade_zero_fade_raises (cur prev : array2 R) :
  nrows cur = 4%nat -> same_shape prev cur = true ->
  exists e, crossfade (1 / 10) cur prev = Raise e.
Proof.
  intros Hn Hs. unfold same_shape in Hs.
  apply andb_prop in Hs. destruct Hs as [Hr Hc].
  apply Nat.eqb_eq in Hr. apply Nat.eqb_eq in Hc.
  assert (Hfl : fade_len (nrows cur) (1 / 10) = 0%Z).
  { unfold fade_len. rewrite Hn. apply py_int_small.
    change (INR 4) with (1 + 1 + 1 + 1). lra. }
  unfold crossfade. rewrite Hfl.
  change (np.linspace 0 1 0) with (Ok (@nil R)).
  change (np.linspace 1 0 0) with (Ok (@nil R)).
  cbn [rbind Z.to_nat]. unfold islice_op at 1.
  cbn [newaxis length nrows ncols tabulate Nat.min].
  rewrite fits_refl, fits_one. cbn [andb rbind].
  unfold bop, last_rows. cbn [Nat.eqb nrows ncols tabulate newaxis length].
  rewrite Nat.sub_0_r, Hr, Hn. cbn [bdim Nat.eqb rbind].
  eexists. reflexivity.
Qed.

(** ** The normalisation *)

Lemma fold_left_Rmax_ge (l : list R) (x : R) :
  x <= fold_left Rmax l x /\ forall y, In y l -> y <= fold_left Rmax l x.
Proof.
  revert x. induction l as [|a l IH]; intros x; cbn [fold_left].
  - split; [lra|]. intros y [].
  - destruct (IH (Rmax x a)) as [H1 H2].
    pose proof (Rmax_l x a). pose proof (Rmax_r x a).
    split; [lra|]. intros y [<-|Hy]; [lra|]. now apply H2.
Qed.

Lemma fold_left_Rmax_in (l : list R) (x : R) :
  fold_left Rmax l x = x \/ In (fold_left Rmax l x) l.
Proof.
  revert x. induction l as [|a l IH]; intros x; cbn [fold_left].
  - now left.
  - destruct (IH (Rmax x a)) as [H|H].
    + rewrite H. unfold Rmax. destruct (Rle_dec x a); [right; now left|now left].
    + right. now right.
Qed.

Lemma np_max_ge (l : list R) (p : R) :
  np.max l = Ok p -> forall y, In y l -> y <= p.
Proof.
  destruct l as [|x t]; [discriminate|]. cbn [np.max].
  intros E. injection E as <-.
  destruct (fold_left_Rmax_ge t x) as [H1 H2].
  intros y [<-|Hy]; [exact H1|now apply H2].
Qed.

Lemma np_max_in (l : list R) (p : R) : np.max l = Ok p -> In p l.
Proof.
  destruct l as [|x t]; [discriminate|]. cbn [np.max].
  intros E. injection E as <-.
  destruct (fold_left_Rmax_in t x) as [H|H]; [rewrite H; now left|now right].
Qed.

Lemma np_max_ok (l : list R) : l <> [] -> exists p, np.max l = Ok p.
Proof. destruct l; [contradiction|]. intros _. eexists; reflexivity. Qed.

Lemma in_entries (a : array2 R) (x : R) :
  In x (entries a) <->
  exists i j, (i < nrows a)%nat /\ (j < ncols a)%nat /\ x = get 0 a i j.
Proof.
  unfold entries. rewrite in_flat_map. split.
  - intros [i [Hi Hx]]. apply in_seq in Hi. apply in_map_iff in Hx.
    destruct Hx as [j [<- Hj]]. apply in_seq in Hj.
    exists i, j. repeat split; lia.
  - intros [i [j (Hi & Hj & ->)]]. exists i. split.
    + apply in_seq. lia.
    + apply in_map_iff. exists j. split; [reflexivity|]. apply in_seq. lia.
Qed.

Lemma entries_nonempty (a : array2 R) :
  (0 < nrows a)%nat -> (0 < ncols a)%nat -> entries a <> [].
Proof.
  intros Hr Hc H.
  assert (Hin : In (get 0 a 0 0) (entries a))
    by (apply in_entries; exists 0%nat, 0%nat; repeat split; assumption).
  rewrite H in Hin. exact Hin.
Qed.

Lemma peak_ge (a : array2 R) (p : R) :
  peak a = Ok p ->
  forall i j, (i < nrows a)%nat -> (j < ncols a)%nat -> Rabs (get 0 a i j) <= p.
Proof.
  unfold peak. intros E i j Hi Hj.
  apply (np_max_ge _ _ E). apply in_map. apply in_entries.
  exists i, j. repeat split; assumption.
Qed.

Lemma peak_nonneg (a : array2 R) (p : R) : peak a = Ok p -> 0 <= p.
Proof.
  unfold peak. intros E. apply np_max_in in E. apply in_map_iff in E.
  destruct E as [x [<- _]]. apply Rabs_pos.
Qed.

Lemma peak_ok (a : array2 R) :
  (0 < nrows a)%nat -> (0 < ncols a)%nat -> exists p, peak a = Ok p.
Proof.
  intros Hr Hc. unfold peak. apply np_max_ok.
  intros H. apply map_eq_nil in H. now apply (entries_nonempty a).
Qed.

Lemma normalize_ok (a : array2 R) :
  (0 < nrows a)%nat -> (0 < ncols a)%nat ->
  exists out, normalize a = Ok out /\
              nrows out = nrows a /\ ncols out = ncols a.
Proof.
  intros Hr Hc. destruct (peak_ok a Hr Hc) as [p Hp].
  unfold normalize. rewrite Hp. cbn [rbind].
  destruct (Rlt_dec 0 p); eexists; repeat split; reflexivity.
Qed.

Lemma normalize_shape (a out : array2 R) :
  normalize a = Ok out -> nrows out = nrows a /\ ncols out = ncols a.
Proof.
  unfold normalize. destruct (peak a) as [p|]; [|discriminate].
  cbn [rbind]. destruct (Rlt_dec 0 p); intros E; injection E as <-;
    split; reflexivity.
Qed.

Lemma Rabs_scaled (x p : R) :
  0 < p -> Rabs x <= p -> Rabs (x / p * (9 / 10)) <= 9 / 10.
Proof.
  intros Hp Hx.
  unfold Rdiv at 1. rewrite !Rabs_mult.
  rewrite (Rabs_pos_eq (9 / 10)) by lra.
  rewrite (Rabs_pos_eq (/ p)) by (left; now apply Rinv_0_lt_compat).
  assert (H : Rabs x * / p <= 1).
  { apply (Rmult_le_reg_r p); [exact Hp|].
    rewrite Rmult_assoc, Rinv_l by lra. lra. }
  pose proof (Rabs_pos x).
  assert (0 <= Rabs x * / p).
  { apply Rmult_le_pos; [assumption|]. left. now apply Rinv_0_lt_compat. }
  nra.
Qed.

(** ** The per-channel loop *)

Lemma length_column (a : array2 R) (ch : nat) : length (column a ch) = nrows a.
Proof. unfold column. now rewrite length_map, length_seq. Qed.

Lemma set_column_shape (a out : array2 R) (ch : nat) (v : list R) :
  set_column a ch v = Ok out -> nrows out = nrows a /\ ncols out = ncols a.
Proof.
  unfold set_column. destruct (fits (length v) (nrows a)); [|discriminate].
  intros E. injection E as <-. split; reflexivity.
Qed.

Lemma process_channels_shape (nr : R) (chs : list nat) (a out : array2 R) :
  process_channels nr chs a = Ok out ->
  nrows out = nrows a /\ ncols out = ncols a.
Proof.
  revert a. induction chs as [|ch rest IH]; intros a; cbn [process_channels].
  - intros E. injection E as <-. split; reflexivity.
  - destruct (gate (column a ch) nr) as [v|]; [|discriminate]. cbn [rbind].
    destruct (set_column a ch v) as [a'|] eqn:E; [|discriminate]. cbn [rbind].
    intros H. apply IH in H. apply set_column_shape in E. lia.
Qed.

(** The loop returns only for blocks of at least eight frames, unless there
    is no channel to process. *)
Lemma process_channels_frames (nr : R) (ch : nat) (rest : list nat)
  (a out : array2 R) :
  process_channels nr (ch :: rest) a = Ok out -> (8 <= nrows a)%nat.
Proof.
  cbn [process_channels].
  destruct (Nat.lt_ge_cases (nrows a) 8) as [H|H]; [|intros _; exact H].
  destruct (gate_small (column a ch) nr) as [e He].
  - now rewrite length_column.
  - rewrite He. discriminate.
Qed.

(** An odd number of frames: the gate returns one sample too few, and
    storing it back into the channel raises. *)
Lemma process_channels_odd (nr : R) (ch : nat) (rest : list nat) (a : array2 R) :
  Nat.odd (nrows a) = true ->
  exists e, process_channels nr (ch :: rest) a = Raise e.
Proof.
  intros Hodd. cbn [process_channels].
  destruct (Nat.lt_ge_cases (nrows a) 8) as [H|H].
  - destruct (gate_small (column a ch) nr) as [e He].
    + now rewrite length_column.
    + rewrite He. eexists; reflexivity.
  - rewrite gate_eq by (now rewrite length_column). cbn [rbind].
    unfold set_column. rewrite length_map, length_seq, length_column.
    rewrite (odd_half _ Hodd). unfold fits.
    destruct (Nat.eqb_spec (nrows a - 1) (nrows a)); [lia|].
    destruct (Nat.eqb_spec (nrows a - 1) 1); [lia|].
    cbn [orb rbind]. eexists; reflexivity.
Qed.

(** ** The callback *)

Lemma with_prev_buffer_twice (s : AudioProcessor) (p q : option (array2 R)) :
  with_prev_buffer (with_prev_buffer s p) q = with_prev_buffer s q.
Proof. reflexivity. Qed.

Lemma with_prev_buffer_same (s : AudioProcessor) :
  with_prev_buffer s (prev_buffer s) = s.
Proof. now destruct s. Qed.

Lemma init_prev_buffer_eq (indata : array2 R) (e : env) :
  init_prev_buffer indata e =
  (mkEnv (with_prev_buffer (self e) (Some (prev_or_zero (self e) indata)))
         (outdata e), Ok tt).
Proof.
  unfold init_prev_buffer, prev_or_zero.
  destruct e as [s o]. cbn [self outdata].
  destruct (prev_buffer s) eqn:E; [|reflexivity].
  now rewrite <- E, with_prev_buffer_same.
Qed.

Lemma setitem_all_shape (r c : nat) (src w : array2 R) :
  setitem_all r c src = Ok w -> nrows w = r /\ ncols w = c.
Proof.
  unfold setitem_all.
  destruct (Nat.eqb_spec (nrows src) r) as [Hr|Hr];
    destruct (Nat.eqb_spec (ncols src) c) as [Hc|Hc]; cbn [andb];
    try (intros E; injection E as <-; split; assumption);
    (destruct (fits (nrows src) r && fits (ncols src) c); [|discriminate];
     intros E; injection E as <-; split; reflexivity).
Qed.

Lemma setitem_all_same (a : array2 R) (r c : nat) :
  nrows a = r -> ncols a = c -> setitem_all r c a = Ok a.
Proof.
  intros <- <-. unfold setitem_all. now rewrite !Nat.eqb_refl.
Qed.

(** The handlers store the raw input. *)
Lemma fallback_eq (indata : array2 R) (x : exn) (e : env) :
  same_shape indata (outdata e) = true ->
  fallback indata x e = (mkEnv (self e) indata, Ok tt).
Proof.
  intros Hs. unfold same_shape in Hs. apply andb_prop in Hs.
  destruct Hs as [Hr Hc]. apply Nat.eqb_eq in Hr. apply Nat.eqb_eq in Hc.
  unfold fallback, write_outdata.
  now rewrite setitem_all_same by congruence.
Qed.

(** The second section never completes on a two-dimensional block: the
    transform raises for a block without frames, and otherwise
    [np.convolve] raises on the two-dimensional mask.  It leaves the
    processor as the lazy initialisation of the previous block leaves it. *)
Lemma section2_raises (indata : array2 R) (e : env) :
  exists x,
    section2 indata e =
    (mkEnv (with_prev_buffer (self e) (Some (prev_or_zero (self e) indata)))
           (outdata e), Raise x).
Proof.
  unfold section2, bind. rewrite init_prev_buffer_eq.
  unfold get_self, lift. cbn [self].
  destruct (np.fft.rfft_axis0 indata) as [F|x]; [|eexists; reflexivity].
  match goal with
  | |- context [np.convolve_same (np.A2 ?m) ?v] =>
      destruct (convolve_same_A2 m v) as [x Hx]; rewrite Hx
  end.
  eexists; reflexivity.
Qed.

(** With at least one frame it is [np.convolve] that raises. *)
Lemma convolve_same_mask2 (m : array2 R) :
  (1 <= nrows m)%nat ->
  np.convolve_same (np.A2 m) (np.A1 (np.hanning 5)) =
  Raise (ValueError "object too deep for desired array").
Proof.
  intros H. unfold np.convolve_same. rewrite hanning_5.
  cbn [np.len length].
  destruct (Nat.ltb_spec (nrows m) 5) as [H5|H5]; cbn [np.len length Nat.eqb].
  - destruct (Nat.eqb_spec (nrows m) 0) as [Hz|Hz]; [lia|reflexivity].
  - destruct (Nat.eqb_spec (nrows m) 0) as [Hz|Hz]; [lia|reflexivity].
Qed.

Lemma section2_raises_in_convolve (indata : array2 R) (e : env) :
  (1 <= nrows indata)%nat ->
  snd (section2 indata e) =
  Raise (ValueError "object too deep for desired array").
Proof.
  intros H. unfold section2, bind. rewrite init_prev_buffer_eq.
  unfold get_self, lift. cbn [self]. unfold np.fft.rfft_axis0.
  destruct (Nat.ltb_spec (nrows indata) 1); [lia|].
  rewrite convolve_same_mask2; [reflexivity|].
  cbn [amap tabulate nrows]. lia.
Qed.

(** The first section, step by step. *)
Lemma section1_eq (indata : array2 R) (e : env) :
  section1 indata e =
  match crossfaded_block (self e) indata with
  | Raise x =>
      (mkEnv (with_prev_buffer (self e)
                (Some (prev_or_zero (self e) indata))) (outdata e), Raise x)
  | Ok cf =>
      let e' := mkEnv (with_prev_buffer (self e) (Some cf)) (outdata e) in
      match normalize cf with
      | Raise x => (e', Raise x)
      | Ok out => write_outdata out e'
      end
  end.
Proof.
  unfold section1, bind. rewrite init_prev_buffer_eq.
  unfold get_self, lift, crossfaded_block.
  cbn [self noise_reduction overlap with_prev_buffer].
  destruct (process_channels (noise_reduction (self e))
              (seq 0 (ncols indata)) indata) as [a|x]; [|reflexivity].
  cbn [rbind]. unfold read_prev_buffer.
  cbn [self prev_buffer with_prev_buffer].
  destruct (crossfade (overlap (self e)) a (prev_or_zero (self e) indata))
    as [cf|x]; [|reflexivity].
  unfold set_prev_buffer. cbn [self outdata with_prev_buffer].
  destruct (normalize cf) as [out|x]; reflexivity.
Qed.

Lemma write_outdata_shape (v : array2 R) (e e' : env) (r : result unit) :
  write_outdata v e = (e', r) ->
  self e' = self e /\ same_shape (outdata e) (outdata e') = true.
Proof.
  unfold write_outdata, same_shape.
  destruct (setitem_all _ _ v) as [w|x] eqn:E; intros H; injection H as <- <-.
  - apply setitem_all_shape in E. destruct E as [E1 E2]. cbn [self outdata].
    now rewrite E1, E2, !Nat.eqb_refl.
  - now rewrite !Nat.eqb_refl.
Qed.

Lemma same_shape_trans (a b c : array2 R) :
  same_shape a b = true -> same_shape b c = true -> same_shape a c = true.
Proof.
  unfold same_shape. intros H1 H2.
  apply andb_prop in H1. apply andb_prop in H2.
  destruct H1 as [H1 H1']. destruct H2 as [H2 H2'].
  apply Nat.eqb_eq in H1, H1', H2, H2'.
  apply andb_true_intro. split; apply Nat.eqb_eq; congruence.
Qed.

(** After the first [try] the processor retains [retained], whatever was
    written to the output buffer, which keeps its shape. *)
Lemma try_section1 (indata : array2 R) (e : env) :
  same_shape indata (outdata e) = true ->
  exists o,
    try_except (section1 indata) (fallback indata) e =
    (mkEnv (with_prev_buffer (self e) (Some (retained (self e) indata))) o,
     Ok tt)
    /\ same_shape indata o = true.
Proof.
  intros Hs. unfold try_except, retained. rewrite section1_eq.
  destruct (crossfaded_block (self e) indata) as [cf|x].
  - cbn zeta. destruct (normalize cf) as [out|x].
    + destruct (write_outdata out _) as [e' r] eqn:E.
      pose proof (write_outdata_shape _ _ _ _ E) as [Hself Hsh].
      cbn [self outdata] in Hself, Hsh.
      destruct r as [[]|x].
      * exists (outdata e'). split.
        -- destruct e' as [s' o']. cbn [self outdata] in *. now subst s'.
        -- now apply (same_shape_trans _ _ _ Hs).
      * rewrite fallback_eq by (now apply (same_shape_trans _ _ _ Hs)).
        exists indata. rewrite Hself. split; [reflexivity|].
        unfold same_shape. now rewrite !Nat.eqb_refl.
    + rewrite fallback_eq by exact Hs. cbn [self].
      exists indata. split; [reflexivity|].
      unfold same_shape. now rewrite !Nat.eqb_refl.
  - rewrite fallback_eq by exact Hs. cbn [self].
    exists indata. split; [reflexivity|].
    unfold same_shape. now rewrite !Nat.eqb_refl.
Qed.

(** The whole callback: the output buffer ends up holding the raw input,
    the processor retains [retained], and no exception escapes. *)
Lemma callback_eq (s : AudioProcessor) (indata outdata0 : array2 R) :
  same_shape indata outdata0 = true ->
  callback s indata outdata0 =
  (mkEnv (with_prev_buffer s (Some (retained s indata))) indata, Ok tt).
Proof.
  intros Hs. unfold callback, callback_m, bind.
  destruct (try_section1 indata (mkEnv s outdata0) Hs) as [o [E Ho]].
  rewrite E. cbn [self] in *. unfold try_except.
  destruct (section2_raises indata
              (mkEnv (with_prev_buffer s (Some (retained s indata))) o))
    as [x Hx].
  rewrite Hx. rewrite fallback_eq by exact Ho.
  reflexivity.
Qed.

Lemma seq_0_pos (n : nat) :
  (0 < n)%nat -> seq 0 n = 0%nat :: seq 1 (n - 1).
Proof.
  destruct n as [|n]; [lia|]. intros _.
  replace (S n - 1)%nat with n by lia. reflexivity.
Qed.

(** A failure of the first section on a block with a channel happens before
    the crossfaded block is stored. *)
Lemma section1_fails_early (indata : array2 R) (e : env) :
  same_shape indata (outdata e) = true ->
  (0 < ncols indata)%nat ->
  is_ok (snd (section1 indata e)) = false ->
  exists x, crossfaded_block (self e) indata = Raise x.
Proof.
  intros Hs Hc Hfail. rewrite section1_eq in Hfail.
  destruct (crossfaded_block (self e) indata) as [cf|x] eqn:E;
    [|eexists; reflexivity].
  exfalso. unfold crossfaded_block in E.
  destruct (process_channels _ _ indata) as [a|] eqn:Ea; [|discriminate].
  cbn [rbind] in E.
  pose proof (seq_0_pos _ Hc) as Hseq.
  rewrite Hseq in Ea.
  pose proof (process_channels_frames _ _ _ _ _ Ea) as Hrows.
  apply process_channels_shape in Ea. destruct Ea as [Hr1 Hc1].
  apply crossfade_frame in E. destruct E as (Hr2 & Hc2 & _).
  destruct (normalize_ok cf) as [out (Hn & Hr3 & Hc3)]; [lia|lia|].
  cbn zeta in Hfail. rewrite Hn in Hfail.
  unfold write_outdata in Hfail. cbn [outdata] in Hfail.
  unfold same_shape in Hs. apply andb_prop in Hs. destruct Hs as [Hs1 Hs2].
  apply Nat.eqb_eq in Hs1, Hs2.
  rewrite setitem_all_same in Hfail by congruence.
  discriminate.
Qed.

Lemma section1_odd_fails (indata : array2 R) (e : env) :
  Nat.odd (nrows indata) = true ->
  (0 < ncols indata)%nat ->
  is_ok (snd (section1 indata e)) = false.
Proof.
  intros Hodd Hc. rewrite section1_eq. unfold crossfaded_block.
  pose proof (seq_0_pos _ Hc) as Hseq.
  rewrite Hseq.
  destruct (process_channels_odd (noise_reduction (self e)) 0
              (seq 1 (ncols indata - 1)) indata Hodd) as [x Hx].
  rewrite Hx. reflexivity.
Qed.

(** ** Silence through the first section *)

Lemma get_silence (r c i j : nat) : get 0 (silence r c) i j = 0.
Proof.
  destruct (Nat.lt_ge_cases i r) as [Hi|Hi];
    destruct (Nat.lt_ge_cases j c) as [Hj|Hj].
  - unfold silence. now rewrite get_tabulate.
  - unfold get. apply nth_overflow.
    unfold silence, tabulate. cbn [rows].
    rewrite (nth_map_seq (fun i => map (fun _ => 0) (seq 0 c))) by exact Hi.
    now rewrite length_map, length_seq.
  - unfold get. rewrite (nth_overflow (rows (silence r c))).
    + now destruct j.
    + unfold silence, tabulate. cbn [rows].
      now rewrite length_map, length_seq.
  - unfold get. rewrite (nth_overflow (rows (silence r c))).
    + now destruct j.
    + unfold silence, tabulate. cbn [rows].
      now rewrite length_map, length_seq.
Qed.

Lemma column_silence (r c ch : nat) : column (silence r c) ch = repeat 0 r.
Proof.
  unfold column. cbn [silence tabulate nrows].
  apply map_seq_const. intros i _. apply get_silence.
Qed.

Lemma set_column_silence (r c ch : nat) :
  set_column (silence r c) ch (repeat 0 r) = Ok (silence r c).
Proof.
  unfold set_column. rewrite repeat_length.
  cbn [silence tabulate nrows ncols]. rewrite fits_refl.
  f_equal. apply tabulate_ext. intros i j _ _.
  destruct (Nat.eqb j ch); [apply nth_repeat_0|].
  apply (get_silence r c).
Qed.

Lemma process_channels_silence (nr : R) (r c : nat) (chs : list nat) :
  (8 <= r)%nat -> Nat.even r = true ->
  process_channels nr chs (silence r c) = Ok (silence r c).
Proof.
  intros Hr He. induction chs as [|ch rest IH]; cbn [process_channels].
  - reflexivity.
  - rewrite column_silence, gate_silence by exact Hr.
    rewrite (even_half _ He). cbn [rbind].
    rewrite set_column_silence. cbn [rbind]. exact IH.
Qed.

Lemma crossfade_silence (r c : nat) :
  (2 <= r)%nat ->
  crossfade (5 / 10) (silence r c) (silence r c) = Ok (silence r c).
Proof.
  intros Hr. pose proof (half_bounds r) as Hh.
  rewrite (crossfade_blend _ _ _ (r / 2)).
  - f_equal. unfold blended. cbn [silence tabulate nrows ncols].
    apply tabulate_ext. intros i j _ _.
    rewrite !(get_silence r c).
    destruct (Nat.ltb i (r / 2)); lra.
  - cbn [silence tabulate nrows]. apply fade_len_half.
  - cbn [silence tabulate nrows]. lia.
  - unfold same_shape. now rewrite !Nat.eqb_refl.
Qed.

(** A first block of silence, with an even number (at least eight) of
    frames, is gated and crossfaded to silence. *)
Lemma crossfaded_block_silence (r c : nat) :
  (8 <= r)%nat -> Nat.even r = true ->
  crossfaded_block AudioProcessor_init (silence r c) = Ok (silence r c).
Proof.
  intros Hr He. unfold crossfaded_block.
  rewrite process_channels_silence by assumption. cbn [rbind].
  apply crossfade_silence. lia.
Qed.

(** ** The transform pair *)

Lemma rsum_app (l1 l2 : list R) : rsum (l1 ++ l2) = rsum l1 + rsum l2.
Proof.
  unfold rsum. induction l1 as [|a l IH]; cbn [app fold_right].
  - lra.
  - rewrite IH. lra.
Qed.

Lemma rsum_seq_S (f : nat -> R) (n : nat) :
  rsum (map f (seq 0 (S n))) = rsum (map f (seq 0 n)) + f n.
Proof.
  rewrite seq_S, map_app, rsum_app. cbn [map rsum fold_right Nat.add]. lra.
Qed.

Lemma rsum_map_ext {A : Type} (f g : A -> R) (l : list A) :
  (forall x, In x l -> f x = g x) -> rsum (map f l) = rsum (map g l).
Proof. intros H. f_equal. now apply map_ext_in. Qed.

Lemma rsum_map_plus {A : Type} (f g : A -> R) (l : list A) :
  rsum (map (fun x => f x + g x) l) = rsum (map f l) + rsum (map g l).
Proof.
  unfold rsum. induction l as [|a l IH]; cbn [map fold_right].
  - lra.
  - rewrite IH. lra.
Qed.

Lemma rsum_map_scal {A : Type} (c : R) (f : A -> R) (l : list A) :
  rsum (map (fun x => c * f x) l) = c * rsum (map f l).
Proof.
  unfold rsum. induction l as [|a l IH]; cbn [map fold_right].
  - lra.
  - rewrite IH. lra.
Qed.

Lemma rsum_swap {A B : Type} (g : A -> B -> R) (la : list A) (lb : list B) :
  rsum (map (fun a => rsum (map (fun b => g a b) lb)) la)
  = rsum (map (fun b => rsum (map (fun a => g a b) la)) lb).
Proof.
  induction la as [|a la IH].
  - cbn [map]. symmetry. apply rsum_map_zero. reflexivity.
  - cbn [map].
    change (rsum (?a :: ?l)) with (a + rsum l).
    rewrite IH. cbn beta.
    rewrite <- rsum_map_plus. reflexivity.
Qed.

Lemma rsum_delta (x : nat -> R) (c : R) (n j : nat) :
  (j < n)%nat ->
  rsum (map (fun t => x t * (if Nat.eqb t j then c else 0)) (seq 0 n)) = x j * c.
Proof.
  induction n as [|n IH]; [lia|]. intros Hj.
  rewrite rsum_seq_S.
  destruct (Nat.eqb_spec n j) as [->|Hne].
  - rewrite rsum_map_zero; [lra|].
    intros t Ht. apply in_seq in Ht.
    destruct (Nat.eqb_spec t j); [lia|lra].
  - rewrite IH by lia. lra.
Qed.

(** Sum of cosines of an arithmetic progression, times twice the sine of
    half the step. *)
Lemma cos_sum_telescope (th : R) (m : nat) :
  2 * sin (th / 2) * rsum (map (fun k => cos (INR k * th)) (seq 0 (S m)))
  = sin ((INR m + 1 / 2) * th) + sin (th / 2).
Proof.
  induction m as [|m IH].
  - cbn [seq map rsum fold_right]. change (INR 0) with 0.
    rewrite Rmult_0_l, cos_0.
    replace ((0 + 1 / 2) * th) with (th / 2) by lra. lra.
  - rewrite rsum_seq_S, Rmult_plus_distr_l, IH.
    rewrite S_INR.
    replace ((INR m + 1 + 1 / 2) * th) with ((INR m + 1) * th + th / 2) by lra.
    replace ((INR m + 1 / 2) * th) with ((INR m + 1) * th - th / 2) by lra.
    rewrite sin_plus, sin_minus. lra.
Qed.

Lemma rsum_const {A : Type} (c : R) (l : list A) :
  rsum (map (fun _ => c) l) = INR (length l) * c.
Proof.
  unfold rsum. induction l as [|a l IH].
  - cbn [map fold_right length]. change (INR 0) with 0. lra.
  - cbn [map fold_right]. rewrite IH.
    change (length (a :: l)) with (S (length l)). rewrite S_INR. lra.
Qed.

Lemma seq_ends (m : nat) :
  (1 <= m)%nat -> seq 0 (S m) = 0%nat :: seq 1 (m - 1) ++ [m].
Proof.
  intros H. rewrite seq_S, (seq_0_pos m) by lia. reflexivity.
Qed.

Lemma rsum_ends (g : nat -> R) (m : nat) :
  (1 <= m)%nat ->
  rsum (map g (seq 0 (S m))) = g 0%nat + rsum (map g (seq 1 (m - 1))) + g m.
Proof.
  intros H. rewrite (seq_ends m H). cbn [map].
  change (rsum (?a :: ?l)) with (a + rsum l).
  rewrite map_app, rsum_app. cbn [map].
  change (rsum [g m]) with (g m + 0). lra.
Qed.

Lemma rsum_weighted (f : nat -> R) (m : nat) :
  (1 <= m)%nat ->
  rsum (map (fun k => bin_weight m k * f k) (seq 0 (S m)))
  = 2 * rsum (map f (seq 0 (S m))) - f 0%nat - f m.
Proof.
  intros H. rewrite !rsum_ends by exact H.
  rewrite (rsum_map_ext (fun k => bin_weight m k * f k) (fun k => 2 * f k)).
  - rewrite rsum_map_scal.
    assert (H0 : bin_weight m 0 = 1) by reflexivity.
    assert (H1 : bin_weight m m = 1)
      by (unfold bin_weight; now rewrite Nat.eqb_refl, orb_true_r).
    rewrite H0, H1. lra.
  - intros k Hk. apply in_seq in Hk. unfold bin_weight.
    destruct (Nat.eqb_spec k 0); [lia|].
    destruct (Nat.eqb_spec k m); [lia|]. reflexivity.
Qed.

Lemma dirichlet (th : R) (m : nat) :
  (1 <= m)%nat ->
  sin (th / 2)
  * rsum (map (fun k => bin_weight m k * cos (INR k * th)) (seq 0 (S m)))
  = sin (INR m * th) * cos (th / 2).
Proof.
  intros H. rewrite (rsum_weighted (fun k => cos (INR k * th))) by exact H.
  pose proof (cos_sum_telescope th m) as T.
  change (INR 0) with 0. rewrite Rmult_0_l, cos_0.
  replace ((INR m + 1 / 2) * th) with (INR m * th + th / 2) in T by lra.
  rewrite sin_plus in T. lra.
Qed.

Lemma sin_PI_INR (t : nat) : sin (PI * INR t) = 0.
Proof.
  apply sin_eq_0_1. exists (Z.of_nat t). rewrite <- INR_IZR_INZ. lra.
Qed.

Lemma sin_PI_diff (t j : nat) : sin (PI * (INR t - INR j)) = 0.
Proof.
  rewrite Rmult_minus_distr_l, sin_minus, !sin_PI_INR. lra.
Qed.

Lemma sin_fraction_nonzero (d n : R) :
  0 < n -> d <> 0 -> - n < d < n -> sin (PI * d / n) <> 0.
Proof.
  intros Hn Hd Hb. pose proof PI_RGT_0 as Hpi.
  assert (Hinv : 0 < / n) by now apply Rinv_0_lt_compat.
  assert (Hone : n * / n = 1) by (apply Rinv_r; lra).
  destruct (Rlt_le_dec 0 d) as [Hpos|Hneg].
  - assert (0 < sin (PI * d / n)); [|lra].
    apply sin_gt_0.
    + unfold Rdiv. apply Rmult_lt_0_compat; [nra|exact Hinv].
    + unfold Rdiv. rewrite Rmult_assoc.
      assert (d * / n < 1) by nra. nra.
  - assert (0 < sin (PI * (- d) / n)).
    { apply sin_gt_0.
      + unfold Rdiv. apply Rmult_lt_0_compat; [nra|exact Hinv].
      + unfold Rdiv. rewrite Rmult_assoc.
        assert (- d * / n < 1) by nra. nra. }
    replace (PI * d / n) with (- (PI * - d / n)) by (unfold Rdiv; lra).
    rewrite sin_neg. lra.
Qed.

(** Orthogonality: the weighted sum of cosines over the bins. *)
Lemma kernel_sum (m t j : nat) :
  (1 <= m)%nat -> (t < 2 * m)%nat -> (j < 2 * m)%nat ->
  rsum (map (fun k => bin_weight m k
                      * cos (2 * PI * INR k * (INR t - INR j) / INR (2 * m)))
            (seq 0 (S m)))
  = if Nat.eqb t j then INR (2 * m) else 0.
Proof.
  intros Hm Ht Hj.
  assert (Hn : INR (2 * m) = 2 * INR m) by (rewrite mult_INR; reflexivity).
  assert (Hmpos : 0 < INR m) by (apply lt_0_INR; lia).
  destruct (Nat.eqb_spec t j) as [->|Hne].
  - rewrite (rsum_map_ext _ (fun k => bin_weight m k * 1)).
    + rewrite (rsum_weighted (fun _ => 1)) by exact Hm.
      rewrite rsum_const, length_seq, S_INR, Hn. lra.
    + intros k _. replace (INR j - INR j) with 0 by lra.
      unfold Rdiv. now rewrite Rmult_0_r, Rmult_0_l, cos_0.
  - set (th := 2 * PI * (INR t - INR j) / INR (2 * m)).
    rewrite (rsum_map_ext _ (fun k => bin_weight m k * cos (INR k * th))).
    + pose proof (dirichlet th m Hm) as D.
      assert (Hs : sin (INR m * th) = 0).
      { replace (INR m * th) with (PI * (INR t - INR j)).
        - apply sin_PI_diff.
        - unfold th. rewrite Hn. field. lra. }
      assert (Hh : sin (th / 2) <> 0).
      { replace (th / 2) with (PI * (INR t - INR j) / INR (2 * m))
          by (unfold th; rewrite Hn; field; lra).
        apply sin_fraction_nonzero.
        - rewrite Hn. lra.
        - intros E. apply Hne. apply INR_eq. lra.
        - apply lt_INR in Ht. apply lt_INR in Hj.
          pose proof (pos_INR t). pose proof (pos_INR j). lra. }
      rewrite Hs, Rmult_0_l in D.
      apply Rmult_integral in D. destruct D as [D|D]; [contradiction|exact D].
    + intros k _. f_equal. f_equal. unfold th. unfold Rdiv. ring.
Qed.

(** One bin of the inverse transform of a transform, as a sum over the
    samples. *)
Lemma idft_term (x : list R) (m k j : nat) :
  (1 <= m)%nat -> length x = (2 * m)%nat ->
  (let w := 2 * PI * INR k * INR j / INR (2 * m) in
   let z := np.fft.dft_bin x k in
   if Nat.eqb k 0 || Nat.eqb k m then fst z * cos w
   else 2 * (fst z * cos w - snd z * sin w))
  = rsum (map (fun t =>
                 nth t x 0
                 * (bin_weight m k
                    * cos (2 * PI * INR k * (INR t - INR j) / INR (2 * m))))
              (seq 0 (2 * m))).
Proof.
  intros Hm Hx. cbn zeta.
  assert (Hn : INR (2 * m) = 2 * INR m) by (rewrite mult_INR; reflexivity).
  assert (Hmpos : 0 < INR m) by (apply lt_0_INR; lia).
  set (b := 2 * PI * INR k * INR j / INR (2 * m)).
  rewrite (rsum_map_ext _
             (fun t => (bin_weight m k * cos b)
                       * (nth t x 0 * cos (2 * PI * INR k * INR t / INR (2 * m)))
                       + (bin_weight m k * sin b)
                         * (nth t x 0
                            * sin (2 * PI * INR k * INR t / INR (2 * m))))).
  2:{ intros t _.
      replace (2 * PI * INR k * (INR t - INR j) / INR (2 * m))
        with (2 * PI * INR k * INR t / INR (2 * m) - b)
        by (unfold b, Rdiv; ring).
      rewrite cos_minus. ring. }
  rewrite rsum_map_plus, !rsum_map_scal.
  unfold np.fft.dft_bin. rewrite Hx. cbn [fst snd].
  unfold bin_weight.
  destruct (Nat.eqb k 0 || Nat.eqb k m) eqn:Eedge.
  - rewrite (rsum_map_zero
               (fun t => nth t x 0
                         * sin (2 * PI * INR k * INR t / INR (2 * m)))).
    + ring.
    + intros t _. apply orb_prop in Eedge.
      destruct Eedge as [E|E]; apply Nat.eqb_eq in E; subst k.
      * change (INR 0) with 0. unfold Rdiv.
        rewrite Rmult_0_r, !Rmult_0_l, sin_0. ring.
      * replace (2 * PI * INR m * INR t / INR (2 * m)) with (PI * INR t)
          by (rewrite Hn; field; lra).
        rewrite sin_PI_INR. ring.
  - ring.
Qed.

(** The inverse real transform undoes the forward one on an even number of
    samples. *)
Lemma idft_dft (x : list R) (m j : nat) :
  (1 <= m)%nat -> length x = (2 * m)%nat -> (j < 2 * m)%nat ->
  np.fft.idft_sample (map (np.fft.dft_bin x) (seq 0 (m + 1))) (2 * m) j
  = nth j x 0.
Proof.
  intros Hm Hx Hj.
  assert (Hn : INR (2 * m) = 2 * INR m) by (rewrite mult_INR; reflexivity).
  assert (Hmpos : 0 < INR m) by (apply lt_0_INR; lia).
  assert (Hhalf : (2 * m / 2)%nat = m)
    by (pose proof (half_bounds (2 * m)); lia).
  unfold np.fft.idft_sample. rewrite Hhalf.
  rewrite (rsum_map_ext _
             (fun k => rsum (map (fun t =>
                 nth t x 0
                 * (bin_weight m k
                    * cos (2 * PI * INR k * (INR t - INR j) / INR (2 * m))))
              (seq 0 (2 * m))))).
  2:{ intros k Hk. apply in_seq in Hk.
      rewrite (nth_map_seq (np.fft.dft_bin x)) by lia.
      now apply idft_term. }
  rewrite rsum_swap.
  rewrite (rsum_map_ext _
             (fun t => nth t x 0 * (if Nat.eqb t j then INR (2 * m) else 0))).
  2:{ intros t Ht. apply in_seq in Ht.
      rewrite rsum_map_scal. f_equal.
      rewrite Nat.add_1_r. apply kernel_sum; lia. }
  rewrite (rsum_delta (fun t => nth t x 0)) by exact Hj.
  rewrite Hn. field. lra.
Qed.

Lemma irfft_rfft (x : list R) :
  (2 <= length x)%nat -> Nat.even (length x) = true ->
  (X <- np.fft.rfft x ;; np.fft.irfft X)%result = Ok x.
Proof.
  intros Hlen He. pose proof (even_half _ He) as Hh.
  unfold np.fft.rfft.
  destruct (Nat.ltb_spec (length x) 1); [lia|]. cbn [rbind].
  unfold np.fft.irfft. rewrite length_map, length_seq.
  replace (2 * (length x / 2 + 1 - 1))%nat with (length x) by lia.
  destruct (Nat.ltb_spec (length x) 1); [lia|]. f_equal.
  apply nth_ext with (d := 0) (d' := 0).
  - now rewrite length_map, length_seq.
  - intros j Hjl. rewrite length_map, length_seq in Hjl.
    rewrite (nth_map_seq _ (length x) j 0) by exact Hjl.
    rewrite <- Hh at 2.
    apply idft_dft; lia.
Qed.

Lemma zeros_like_shape (a b : array2 R) :
  same_shape a b = true -> np.zeros_like a = np.zeros_like b.
Proof.
  unfold same_shape. intros H. apply andb_prop in H. destruct H as [H1 H2].
  apply Nat.eqb_eq in H1, H2. unfold np.zeros_like. now rewrite H1, H2.
Qed.

(** After a failed block the processor retains, on the next block of the
    same shape, what it would have retained without the failed block. *)
Lemma retained_after_failure (s : AudioProcessor) (indata next : array2 R) :
  same_shape next indata = true ->
  retained (with_prev_buffer s (Some (prev_or_zero s indata))) next
  = retained s next.
Proof.
  intros Hs. unfold retained, crossfaded_block.
  cbn [noise_reduction overlap with_prev_buffer].
  assert (Hp : prev_or_zero
                 (with_prev_buffer s (Some (prev_or_zero s indata))) next
               = prev_or_zero s next).
  { unfold prev_or_zero. cbn [prev_buffer with_prev_buffer].
    destruct (prev_buffer s); [reflexivity|].
    symmetry. now apply zeros_like_shape. }
  now rewrite Hp.
Qed.

(** ** Nothing to fade *)

Lemma crossfade_no_fade_raises (ov : R) (cur prev : array2 R) :
  same_shape prev cur = true ->
  fade_len (nrows cur) ov = 0%Z ->
  (2 <= nrows cur)%nat ->
  exists e, crossfade ov cur prev = Raise e.
Proof.
  intros Hs Hfl Hn. unfold same_shape in Hs.
  apply andb_prop in Hs. destruct Hs as [Hr Hc].
  apply Nat.eqb_eq in Hr. apply Nat.eqb_eq in Hc.
  unfold crossfade. rewrite Hfl.
  change (np.linspace 0 1 0) with (Ok (@nil R)).
  change (np.linspace 1 0 0) with (Ok (@nil R)).
  cbn [rbind Z.to_nat]. unfold islice_op at 1.
  cbn [newaxis length nrows ncols tabulate Nat.min].
  rewrite fits_refl, fits_one. cbn [andb rbind].
  unfold bop, last_rows. cbn [Nat.eqb nrows ncols tabulate newaxis length].
  rewrite Nat.sub_0_r, Hr.
  assert (Hb : bdim (nrows cur) 0 = None).
  { unfold bdim. destruct (Nat.eqb_spec (nrows cur) 0); [lia|].
    destruct (Nat.eqb_spec (nrows cur) 1); [lia|]. reflexivity. }
  rewrite Hb. eexists. reflexivity.
Qed.

Lemma fade_len_tenth_of_eight : fade_len 8 (1 / 10) = 0%Z.
Proof.
  unfold fade_len. apply py_int_small.
  change (INR 8) with (1 + 1 + 1 + 1 + 1 + 1 + 1 + 1). lra.
Qed.

(** ** The unit impulse below full strength *)

Lemma gate_mask_impulse8_below_one (s : R) :
  s < 1 -> gate_mask impulse8 s = repeat true 5.
Proof.
  intros Hs. unfold gate_mask, keep_mask.
  change (length impulse8 / 2 + 1)%nat with 5%nat.
  cbn [seq map]. rewrite !dft_bin_impulse8, abs_one.
  assert (Hm : np.mean [1; 1; 1; 1; 1] = 1).
  { unfold np.mean. cbn [rsum fold_right length].
    change (INR 5) with (1 + 1 + 1 + 1 + 1). field. }
  rewrite Hm. unfold gtb.
  destruct (Rlt_dec (1 * s) 1) as [_|H]; [reflexivity|lra].
Qed.

Lemma gated_spectrum_impulse8_below_one (s : R) :
  s < 1 ->
  gated_spectrum impulse8 s = [(3/4, 0); (1, 0); (1, 0); (1, 0); (3/4, 0)].
Proof.
  intros Hs. unfold gated_spectrum.
  rewrite (gate_mask_impulse8_below_one s Hs), smoothed_ones5.
  change (length impulse8 / 2 + 1)%nat with 5%nat.
  cbn [seq map length nth]. rewrite !dft_bin_impulse8.
  unfold cscale. cbn [fst snd].
  repeat (apply (f_equal2 (@cons cplx)); [f_equal; lra|]). reflexivity.
Qed.

Lemma idft_sample_impulse8_4 (s : R) :
  s < 1 -> np.fft.idft_sample (gated_spectrum impulse8 s) 8 4 = - (1 / 16).
Proof.
  intros Hs. rewrite (gated_spectrum_impulse8_below_one s Hs).
  unfold np.fft.idft_sample.
  change (8 / 2 + 1)%nat with 5%nat. change (8 / 2)%nat with 4%nat.
  cbn [seq map nth Nat.eqb orb fst snd rsum fold_right].
  change (INR 0) with 0. change (INR 1) with 1.
  change (INR 2) with (1 + 1). change (INR 3) with (1 + 1 + 1).
  change (INR 4) with (1 + 1 + 1 + 1).
  change (INR 8) with (1 + 1 + 1 + 1 + 1 + 1 + 1 + 1).
  replace (2 * PI * 0 * (1 + 1 + 1 + 1) / (1 + 1 + 1 + 1 + 1 + 1 + 1 + 1))
    with 0 by lra.
  replace (2 * PI * 1 * (1 + 1 + 1 + 1) / (1 + 1 + 1 + 1 + 1 + 1 + 1 + 1))
    with PI by lra.
  replace (2 * PI * (1 + 1) * (1 + 1 + 1 + 1)
           / (1 + 1 + 1 + 1 + 1 + 1 + 1 + 1))
    with (2 * PI) by lra.
  replace (2 * PI * (1 + 1 + 1) * (1 + 1 + 1 + 1)
           / (1 + 1 + 1 + 1 + 1 + 1 + 1 + 1))
    with (PI + 2 * PI) by lra.
  replace (2 * PI * (1 + 1 + 1 + 1) * (1 + 1 + 1 + 1)
           / (1 + 1 + 1 + 1 + 1 + 1 + 1 + 1))
    with (2 * PI + 2 * PI) by lra.
  rewrite !cos_plus, cos_0, cos_PI, cos_2PI, ?sin_PI, ?sin_2PI. lra.
Qed.

(** ** The unit impulse through the first section *)

Lemma column_impulse_block : column impulse_block 0 = impulse8.
Proof.
  unfold column, impulse_block, newaxis. cbn [tabulate nrows].
  rewrite <- (map_nth_seq impulse8 0) at 2.
  apply map_ext_in. intros i Hi. apply in_seq in Hi.
  change (mk2 (length impulse8) 1 ?r)
    with (tabulate (length impulse8) 1 (fun i _ => nth i impulse8 0)).
  now rewrite get_tabulate by lia.
Qed.

Lemma crossfaded_impulse_block (p : AudioProcessor) :
  noise_reduction p = 5 / 10 -> overlap p = 5 / 10 ->
  prev_buffer p = None ->
  exists cf, crossfaded_block p impulse_block = Ok cf
             /\ get 0 cf 4 0 = - (1 / 16).
Proof.
  intros Hnr Hov Hprev. unfold crossfaded_block.
  change (seq 0 (ncols impulse_block)) with [0%nat].
  cbn [process_channels]. rewrite column_impulse_block, Hnr.
  rewrite gate_eq by (cbn [impulse8 length]; lia).
  change (2 * (length impulse8 / 2))%nat with 8%nat.
  cbn [rbind].
  set (g := map (np.fft.idft_sample (gated_spectrum impulse8 (5 / 10)) 8)
                (seq 0 8)).
  assert (Hg : length g = 8%nat)
    by (unfold g; now rewrite length_map, length_seq).
  unfold set_column. rewrite Hg.
  change (nrows impulse_block) with 8%nat.
  change (ncols impulse_block) with 1%nat.
  cbn [fits Nat.eqb orb rbind].
  set (a := tabulate 8 1
              (fun i j => if Nat.eqb j 0 then nth i g 0
                          else get 0 impulse_block i j)).
  unfold prev_or_zero. rewrite Hprev, Hov.
  rewrite (crossfade_blend _ a _ 4).
  - eexists. split; [reflexivity|].
    unfold blended. change (nrows a) with 8%nat. change (ncols a) with 1%nat.
    rewrite get_tabulate by lia. cbn [Nat.ltb Nat.leb].
    unfold a. rewrite get_tabulate by lia. cbn [Nat.eqb].
    unfold g.
    rewrite (nth_map_seq
               (np.fft.idft_sample (gated_spectrum impulse8 (5 / 10)) 8))
      by lia.
    apply idft_sample_impulse8_4. lra.
  - exact (fade_len_half 8).
  - change (nrows a) with 8%nat. lia.
  - reflexivity.
Qed.

(** A block delivered after [stop], while the stream is still open, makes
    the processor retain a block again. *)
Lemma late_block_restores (ss : Session) (indata outdata0 : array2 R) :
  stream_open ss = true ->
  same_shape indata outdata0 = true ->
  processor (run_events [PressStop; Block indata outdata0] ss)
  = with_prev_buffer (stop (processor ss))
      (Some (retained (stop (processor ss)) indata)).
Proof.
  intros Ho Hs. cbn [run_events step stream_open processor]. rewrite Ho.
  cbn [processor]. now rewrite (callback_eq _ _ _ Hs).
Qed.

(** * The claims *)

(** C1. For every two-dimensional input block the callback ends with the
    output buffer holding the unmodified input: the second section always
    raises (in [np.convolve], on the two-dimensional mask, as soon as the
    block has a frame) and its handler stores the raw input.  The processor
    retains what the first section left: its crossfaded block, before
    normalisation, whenever the first section got that far. *)
Theorem callback_outputs_raw_input (s : AudioProcessor)
  (indata outdata0 : array2 R) :
  same_shape indata outdata0 = true ->
  outdata (fst (callback s indata outdata0)) = indata
  /\ (forall e, is_ok (snd (section2 indata e)) = false)
  /\ (forall e, (1 <= nrows indata)%nat ->
                snd (section2 indata e) =
                Raise (ValueError "object too deep for desired array"))
  /\ prev_buffer (self (fst (callback s indata outdata0)))
     = Some (retained s indata)
  /\ (forall cf, crossfaded_block s indata = Ok cf ->
                 prev_buffer (self (fst (callback s indata outdata0)))
                 = Some cf).
Proof.
  intros Hs. rewrite (callback_eq _ _ _ Hs). cbn [fst self outdata prev_buffer
                                                  with_prev_buffer].
  split; [reflexivity|]. split.
  { intros e. destruct (section2_raises indata e) as [x Hx]. now rewrite Hx. }
  split.
  { intros e H. now apply section2_raises_in_convolve. }
  split; [reflexivity|].
  intros cf Hcf. unfold retained. now rewrite Hcf.
Qed.

Lemma callback_outputs_raw_input_witness :
  same_shape (silence 8 1) (silence 8 1) = true
  /\ outdata (fst (callback AudioProcessor_init (silence 8 1) (silence 8 1)))
     = silence 8 1
  /\ prev_buffer
       (self (fst (callback AudioProcessor_init (silence 8 1) (silence 8 1))))
     = Some (silence 8 1).
Proof.
  split; [reflexivity|].
  destruct (callback_outputs_raw_input AudioProcessor_init
              (silence 8 1) (silence 8 1) eq_refl) as (H1 & _ & _ & _ & H5).
  split; [exact H1|].
  apply H5. apply crossfaded_block_silence; [lia|reflexivity].
Defined.

(** C2, as amended.  At strength 0 the gate returns, for an even number
    (at least eight) of samples, the inverse transform of the spectrum with
    bin [k] scaled by a weight in [0, 1]; a bin is kept when its magnitude is
    not zero; the weights of the first and of the last bin are at most 3/4,
    because the mask is smoothed against zeros beyond its ends.  The signal
    is therefore not reconstructed, although the transform pair on its own
    is lossless. *)
Theorem gate_strength0_weights (x : list R) :
  (8 <= length x)%nat -> Nat.even (length x) = true ->
  let n := length x in
  let w := smoothed (map b2r (gate_mask x 0)) in
  gate x 0 = Ok (map (np.fft.idft_sample (gated_spectrum x 0) n) (seq 0 n))
  /\ (forall k, (k < n / 2 + 1)%nat ->
                nth k (gated_spectrum x 0) (0, 0)
                = cscale (np.fft.dft_bin x k) (nth k w 0)
                /\ 0 <= nth k w 0 <= 1
                /\ (nth k (gate_mask x 0) false = true
                    <-> np.abs (np.fft.dft_bin x k) <> 0))
  /\ nth 0 w 0 <= 3 / 4
  /\ nth (n / 2) w 0 <= 3 / 4
  /\ (X <- np.fft.rfft x ;; np.fft.irfft X)%result = Ok x.
Proof.
  intros HN He n w. pose proof (half_bounds n) as Hh.
  assert (Hb : forall m k, 0 <= nth k (map b2r m) 0 <= 1).
  { intros m k. destruct (Nat.lt_ge_cases k (length m)) as [H|H].
    - rewrite (nth_indep _ 0 (b2r false)) by (now rewrite length_map).
      rewrite map_nth. destruct (nth k m false); cbn [b2r]; lra.
    - rewrite nth_overflow by (now rewrite length_map). lra. }
  assert (Hlen : length (map b2r (gate_mask x 0)) = (n / 2 + 1)%nat).
  { unfold gate_mask. now rewrite length_map, length_keep_mask, !length_map,
      length_seq. }
  assert (Hw : forall k, (k < n / 2 + 1)%nat ->
                         nth k w 0 = smooth_at (map b2r (gate_mask x 0)) k).
  { intros k Hk. unfold w, smoothed. rewrite Hlen.
    now rewrite (nth_map_seq (smooth_at (map b2r (gate_mask x 0)))). }
  split.
  { rewrite gate_eq by exact HN. unfold n. now rewrite (even_half _ He). }
  split.
  { intros k Hk. split; [|split].
    - unfold gated_spectrum. rewrite length_map, length_seq. fold n. fold w.
      rewrite (nth_map_seq
                 (fun k => cscale (nth k (map (np.fft.dft_bin x)
                                             (seq 0 (n / 2 + 1))) (0, 0))
                             (nth k w 0))) by exact Hk.
      now rewrite (nth_map_seq (np.fft.dft_bin x)) by exact Hk.
    - rewrite (Hw k Hk). unfold smooth_at.
      pose proof (Hb (gate_mask x 0) (k + 1)%nat).
      pose proof (Hb (gate_mask x 0) k).
      destruct k as [|q]; [lra|].
      pose proof (Hb (gate_mask x 0) q). lra.
    - unfold gate_mask, keep_mask. rewrite Rmult_0_r.
      fold n. rewrite !map_map.
      rewrite (nth_map_seq (fun k => gtb (np.abs (np.fft.dft_bin x k)) 0))
        by exact Hk.
      unfold gtb.
      assert (0 <= np.abs (np.fft.dft_bin x k)) by apply sqrt_pos.
      destruct (Rlt_dec 0 (np.abs (np.fft.dft_bin x k))); split;
        intros; try lra; try discriminate; try reflexivity. }
  split; [|split].
  - rewrite (Hw 0%nat) by lia. unfold smooth_at.
    pose proof (Hb (gate_mask x 0) 1%nat). pose proof (Hb (gate_mask x 0) 0%nat).
    cbn [Nat.add]. lra.
  - rewrite (Hw (n / 2)%nat) by lia. unfold smooth_at.
    rewrite (nth_overflow _ 0 (n := n / 2 + 1)) by (rewrite Hlen; lia).
    pose proof (Hb (gate_mask x 0) (n / 2)%nat).
    destruct (n / 2)%nat as [|q] eqn:Eq; [lia|].
    pose proof (Hb (gate_mask x 0) q). lra.
  - apply irfft_rfft; [lia|exact He].
Qed.

Lemma gate_strength0_weights_witness :
  (8 <= length impulse8)%nat /\ Nat.even (length impulse8) = true
  /\ nth 0 (smoothed (map b2r (gate_mask impulse8 0))) 0 <= 3 / 4.
Proof.
  split; [cbn [impulse8 length]; lia|]. split; [reflexivity|].
  apply (gate_strength0_weights impulse8);
    [cbn [impulse8 length]; lia|reflexivity].
Defined.

(** C2, as stated, fails: at strength 0 a unit impulse of eight samples
    comes back with its first sample at 15/16, off by 1/16. *)
Lemma gate_strength0_not_lossless :
  exists out, gate impulse8 0 = Ok out
              /\ Rabs (nth 0 out 0 - nth 0 impulse8 0) = 1 / 16.
Proof.
  destruct gate_impulse8_first as [out [H1 H2]].
  exists out. split; [exact H1|].
  rewrite H2. cbn [impulse8 nth].
  replace (15 / 16 - 1) with (- (1 / 16)) by lra.
  rewrite Rabs_Ropp. apply Rabs_pos_eq. lra.
Qed.

(** C3.  The processor is created with strength 0.5; the slider is set to
    30 before [valueChanged] is connected and before the processor exists,
    so the 0.3 it stands for never reaches the processor, and starting the
    stream does not change the strength either. *)
Theorem default_strength_is_half :
  exists d p d' p',
    AudioDenoiser_init = Ok d
    /\ audio_processor d = Some p
    /\ value (noise_slider d) = 30%Z
    /\ noise_reduction p = 5 / 10
    /\ noise_reduction p <> IZR (value (noise_slider d)) / 100
    /\ toggle_processing (Some 0%Z) d = Ok d'
    /\ audio_processor d' = Some p'
    /\ running p' = true
    /\ noise_reduction p' = 5 / 10.
Proof.
  exists (mkAudioDenoiser (mkQSlider 0 100 30 true) (Some AudioProcessor_init)).
  exists AudioProcessor_init.
  exists (mkAudioDenoiser (mkQSlider 0 100 30 true)
            (Some {| running := true;
                     noise_reduction := 5 / 10;
                     output_device := Some 0%Z;
                     prev_buffer := None;
                     buffer_size := 2048;
                     overlap := 5 / 10 |})).
  eexists.
  split; [reflexivity|]. split; [reflexivity|]. split; [reflexivity|].
  split; [reflexivity|]. split.
  { cbn [noise_reduction AudioProcessor_init value noise_slider]. lra. }
  split; [reflexivity|]. split; [reflexivity|]. split; reflexivity.
Qed.

(** C4, as amended.  Silence of an even number (at least eight) of samples
    comes back unchanged at every strength: all magnitudes are 0, the
    threshold is 0, and since the comparison is strict no bin is kept; the
    spectrum, zero already, is scaled by zero weights and resynthesised to
    silence. *)
Theorem gate_silence_unchanged (n : nat) (strength : R) :
  (8 <= n)%nat -> Nat.even n = true ->
  gate (repeat 0 n) strength = Ok (repeat 0 n)
  /\ gate_mask (repeat 0 n) strength = repeat false (n / 2 + 1).
Proof.
  intros Hn He. split.
  - rewrite gate_silence by exact Hn. now rewrite (even_half _ He).
  - apply gate_mask_silence.
Qed.

Lemma gate_silence_unchanged_witness :
  (8 <= 8)%nat /\ Nat.even 8 = true
  /\ gate (repeat 0 8) (3 / 10) = Ok (repeat 0 8)
  /\ gate_mask (repeat 0 8) (3 / 10) = repeat false (8 / 2 + 1).
Proof.
  split; [lia|]. split; [reflexivity|].
  apply (gate_silence_unchanged 8 (3 / 10)); [lia|reflexivity].
Defined.

(** C4, as stated, fails: on eight samples of silence the keep-mask is not
    all-true (no bin is kept). *)
Lemma gate_silence_mask_not_all_true :
  ~ (gate (repeat 0 8) (3 / 10) = Ok (repeat 0 8)
     /\ Forall (fun b => b = true) (gate_mask (repeat 0 8) (3 / 10))).
Proof.
  intros [_ H]. rewrite gate_mask_silence in H.
  change (8 / 2 + 1)%nat with 5%nat in H. cbn [repeat] in H.
  inversion H as [|b l Hb _]. discriminate Hb.
Qed.

(** C5.  A block with a strictly positive peak is scaled sample by sample
    by [0.9 / peak], and the peak of the result does not exceed 0.9; a block
    whose peak is 0 is returned unchanged. *)
Theorem normalize_peak (a : array2 R) (p : R) :
  peak a = Ok p ->
  (0 < p ->
   exists out,
     normalize a = Ok out
     /\ nrows out = nrows a /\ ncols out = ncols a
     /\ (forall i j, (i < nrows a)%nat -> (j < ncols a)%nat ->
                     get 0 out i j = get 0 a i j * (9 / 10 / p))
     /\ exists q, peak out = Ok q /\ q <= 9 / 10)
  /\ (p = 0 -> normalize a = Ok a).
Proof.
  intros Hp. split.
  - intros Hpos. unfold normalize. rewrite Hp. cbn [rbind].
    destruct (Rlt_dec 0 p) as [_|H]; [|contradiction].
    eexists. split; [reflexivity|].
    assert (Hget : forall i j, (i < nrows a)%nat -> (j < ncols a)%nat ->
                     get 0 (amap (fun x => x / p * (9 / 10)) a) i j
                     = get 0 a i j / p * (9 / 10)).
    { intros i j Hi Hj. unfold amap. now rewrite get_tabulate. }
    split; [reflexivity|]. split; [reflexivity|]. split.
    + intros i j Hi Hj. rewrite Hget by assumption. field. lra.
    + assert (Hin : In p (map Rabs (entries a))) by (now apply np_max_in).
      apply in_map_iff in Hin. destruct Hin as [x [_ Hx]].
      apply in_entries in Hx. destruct Hx as [i0 [j0 (Hi0 & Hj0 & _)]].
      destruct (peak_ok (amap (fun x => x / p * (9 / 10)) a)) as [q Hq];
        [cbn [amap tabulate nrows]; lia|cbn [amap tabulate ncols]; lia|].
      exists q. split; [exact Hq|].
      unfold peak in Hq. apply np_max_in in Hq. apply in_map_iff in Hq.
      destruct Hq as [y [<- Hy]]. apply in_entries in Hy.
      destruct Hy as [i [j (Hi & Hj & ->)]].
      cbn [amap tabulate nrows ncols] in Hi, Hj.
      rewrite Hget by assumption.
      apply Rabs_scaled; [exact Hpos|]. now apply (peak_ge a).
  - intros ->. unfold normalize. rewrite Hp. cbn [rbind].
    destruct (Rlt_dec 0 0) as [H|_]; [lra|reflexivity].
Qed.

Lemma normalize_peak_witness :
  peak (mk2 1 2 [[1 / 2; - 2]]) = Ok (Rmax (Rabs (1 / 2)) (Rabs (- 2)))
  /\ (0 < Rmax (Rabs (1 / 2)) (Rabs (- 2)) ->
      exists out, normalize (mk2 1 2 [[1 / 2; - 2]]) = Ok out
                  /\ exists q, peak out = Ok q /\ q <= 9 / 10).
Proof.
  split; [reflexivity|].
  destruct (normalize_peak (mk2 1 2 [[1 / 2; - 2]])
              (Rmax (Rabs (1 / 2)) (Rabs (- 2))) eq_refl) as [H _].
  intros Hpos. destruct (H Hpos) as [out (H1 & _ & _ & _ & H5)].
  exists out. split; assumption.
Defined.

(** C6.  When the first section fails on a block (with at least one
    channel), the callback still returns normally, the output buffer holds
    the raw input, and the processor is left with the previous block the
    crossfade would have read: the block retained before the call or, when
    none was retained yet, the silence stored by the lazy initialisation.
    A processor that already retained a block is left exactly as it was, and
    in either case a later block of the same shape is processed as if the
    failed block had never been delivered. *)
Theorem callback_failure_passes_through (s : AudioProcessor)
  (indata outdata0 : array2 R) :
  same_shape indata outdata0 = true ->
  (0 < ncols indata)%nat ->
  is_ok (snd (section1 indata (mkEnv s outdata0))) = false ->
  snd (callback s indata outdata0) = Ok tt
  /\ outdata (fst (callback s indata outdata0)) = indata
  /\ self (fst (callback s indata outdata0))
     = with_prev_buffer s (Some (prev_or_zero s indata))
  /\ (forall p, prev_buffer s = Some p ->
                self (fst (callback s indata outdata0)) = s)
  /\ (forall next outdata1,
        same_shape next indata = true ->
        same_shape next outdata1 = true ->
        callback (self (fst (callback s indata outdata0))) next outdata1
        = callback s next outdata1).
Proof.
  intros Hs Hc Hfail.
  destruct (section1_fails_early indata (mkEnv s outdata0) Hs Hc Hfail)
    as [x Hx].
  cbn [self] in Hx.
  rewrite (callback_eq _ _ _ Hs). cbn [fst snd self outdata].
  unfold retained at 1 2 3. rewrite Hx.
  split; [reflexivity|]. split; [reflexivity|]. split; [reflexivity|].
  split.
  - intros p Hp. unfold prev_or_zero. rewrite Hp, <- Hp.
    apply with_prev_buffer_same.
  - intros next outdata1 Hn Ho.
    rewrite !(callback_eq _ _ _ Ho).
    now rewrite retained_after_failure, with_prev_buffer_twice.
Qed.

Lemma callback_failure_passes_through_witness :
  same_shape (silence 9 1) (silence 9 1) = true
  /\ (0 < ncols (silence 9 1))%nat
  /\ snd (callback AudioProcessor_init (silence 9 1) (silence 9 1)) = Ok tt
  /\ outdata (fst (callback AudioProcessor_init (silence 9 1) (silence 9 1)))
     = silence 9 1.
Proof.
  split; [reflexivity|]. split; [cbn [silence tabulate ncols]; lia|].
  destruct (callback_failure_passes_through AudioProcessor_init
              (silence 9 1) (silence 9 1)) as (H1 & H2 & _).
  - reflexivity.
  - cbn [silence tabulate ncols]. lia.
  - apply section1_odd_fails; [reflexivity|cbn [silence tabulate ncols]; lia].
  - split; assumption.
Defined.

(** C7.  Nine samples: the inverse transform yields eight, trimming to nine
    leaves eight, and storing eight samples into a channel of nine frames
    raises. *)
Theorem gate_nine_samples_returns_eight :
  gate (repeat 0 9) (5 / 10) = Ok (repeat 0 8)
  /\ is_ok (set_column (silence 9 1) 0 (repeat 0 8)) = false
  /\ forall s o, is_ok (snd (section1 (silence 9 1) (mkEnv s o))) = false.
Proof.
  split; [|split].
  - rewrite gate_silence by lia. reflexivity.
  - reflexivity.
  - intros s o. apply section1_odd_fails; [reflexivity|].
    cbn [silence tabulate ncols]. lia.
Qed.

(** With the overlap the processor is created with, the fade is empty only
    for a block of at most one frame, and such a block is returned
    unchanged. *)
Lemma crossfade_zero_fade_noop (cur prev : array2 R) :
  wf cur ->
  same_shape prev cur = true ->
  fade_len (nrows cur) (overlap AudioProcessor_init) = 0%Z ->
  crossfade (overlap AudioProcessor_init) cur prev = Ok cur.
Proof.
  intros Hwf Hs Hfl. rewrite crossfade_noop; try assumption.
  - now rewrite tabulate_get.
  - cbn [overlap AudioProcessor_init] in Hfl. rewrite fade_len_half in Hfl.
    pose proof (half_bounds (nrows cur)). lia.
Qed.

Lemma crossfade_zero_fade_noop_witness :
  wf (mk2 1 2 [[1; - 1]])
  /\ same_shape (mk2 1 2 [[1 / 2; 1 / 2]]) (mk2 1 2 [[1; - 1]]) = true
  /\ fade_len 1 (overlap AudioProcessor_init) = 0%Z
  /\ crossfade (overlap AudioProcessor_init)
       (mk2 1 2 [[1; - 1]]) (mk2 1 2 [[1 / 2; 1 / 2]])
     = Ok (mk2 1 2 [[1; - 1]]).
Proof.
  split; [apply wfb_wf; reflexivity|]. split; [reflexivity|].
  split; [exact (fade_len_half 1)|].
  apply crossfade_zero_fade_noop.
  - apply wfb_wf. reflexivity.
  - reflexivity.
  - exact (fade_len_half 1).
Defined.

(** C8.  With [overlap] set to 0.1 a block of eight frames has
    [fade_len = int(0.8) = 0], and the crossfade is not a no-op there: the
    slice [prev_buffer[-0:]] is the whole retained block, its eight frames
    do not broadcast against the empty ramp, and line 74 raises.  The first
    section of the callback fails on such a block, silence included, and the
    handler copies the input to the output; with the overlap of a new
    processor the same block goes through. *)
Theorem crossfade_zero_fade_eight_frames_raises :
  fade_len (nrows impulse_block) (overlap overlap_tenth) = 0%Z
  /\ same_shape (silence 8 1) impulse_block = true
  /\ is_ok (crossfade (overlap overlap_tenth) impulse_block (silence 8 1))
     = false
  /\ is_ok (snd (section1 (silence 8 1) (mkEnv overlap_tenth (silence 8 1))))
     = false
  /\ outdata (fst (callback overlap_tenth (silence 8 1) (silence 8 1)))
     = silence 8 1
  /\ is_ok (snd (section1 (silence 8 1)
                   (mkEnv AudioProcessor_init (silence 8 1)))) = true.
Proof.
  split; [exact fade_len_tenth_of_eight|]. split; [reflexivity|].
  split.
  { destruct (crossfade_no_fade_raises (1 / 10) impulse_block (silence 8 1))
      as [e He].
    - reflexivity.
    - exact fade_len_tenth_of_eight.
    - change (nrows impulse_block) with 8%nat. lia.
    - cbn [overlap overlap_tenth]. now rewrite He. }
  split.
  { rewrite section1_eq. cbn [self]. unfold crossfaded_block.
    rewrite process_channels_silence by (lia || reflexivity).
    cbn [rbind].
    destruct (crossfade_no_fade_raises (1 / 10) (silence 8 1)
                (prev_or_zero overlap_tenth (silence 8 1))) as [e He].
    - reflexivity.
    - exact fade_len_tenth_of_eight.
    - cbn [silence tabulate nrows]. lia.
    - cbn [overlap overlap_tenth]. now rewrite He. }
  split.
  { now rewrite callback_eq by reflexivity. }
  rewrite section1_eq. cbn [self outdata].
  rewrite crossfaded_block_silence by (lia || reflexivity).
  destruct (normalize_ok (silence 8 1)) as [out (Hn & Hr & Hc)];
    [cbn [silence tabulate nrows]; lia|cbn [silence tabulate ncols]; lia|].
  cbn zeta. rewrite Hn. unfold write_outdata. cbn [outdata].
  now rewrite setitem_all_same by assumption.
Qed.

(** C9.  For a previous block of the shape of the current one the
    crossfade returns; and whenever it returns, whatever the overlap, the
    block keeps its shape and every frame at index [fade_len] or beyond is
    the frame it was. *)
Theorem crossfade_keeps_tail (ov : R) (cur prev : array2 R) :
  same_shape prev cur = true ->
  (exists out, crossfade (overlap AudioProcessor_init) cur prev = Ok out)
  /\ (forall out,
        crossfade ov cur prev = Ok out ->
        nrows out = nrows cur /\ ncols out = ncols cur
        /\ forall i j, (i < nrows cur)%nat -> (j < ncols cur)%nat ->
                       (fade_len (nrows cur) ov <= Z.of_nat i)%Z ->
                       get 0 out i j = get 0 cur i j).
Proof.
  intros Hs. split.
  - now apply crossfade_returns.
  - intros out. apply crossfade_frame.
Qed.

Lemma crossfade_keeps_tail_witness :
  same_shape (silence 8 2) (silence 8 2) = true
  /\ exists out,
       crossfade (overlap AudioProcessor_init) (silence 8 2) (silence 8 2)
       = Ok out.
Proof.
  split; [reflexivity|].
  apply (crossfade_keeps_tail (5 / 10) (silence 8 2) (silence 8 2)).
  reflexivity.
Defined.

(** [stop] by itself clears the running flag and the retained block, and
    leaves the rest of the processor alone. *)
Lemma stop_clears_state (s : AudioProcessor) :
  running (stop s) = false
  /\ prev_buffer (stop s) = None
  /\ noise_reduction (stop s) = noise_reduction s
  /\ output_device (stop s) = output_device s
  /\ overlap (stop s) = overlap s
  /\ forall indata,
       prev_or_zero (stop s) indata = silence (nrows indata) (ncols indata).
Proof.
  repeat split.
Qed.

(** C10.  [stop] clears the running flag and the retained block, but the
    stream stays open until the loop of [run] next wakes (lines 172-173),
    and a block delivered in between is processed and retained again
    (lines 34 and 77).  Starting again does not clear it: after stop, one
    late block, the loop leaving the stream, and start, the processor holds
    a block with a non-zero entry, so the first block of the new session is
    not crossfaded against zeros.  When the loop wakes before any block
    arrives, the retained block stays cleared. *)
Theorem stop_then_late_block_is_retained :
  let late := run_events [PressStop; Block impulse_block impulse_block;
                          Wake; PressStart (Some 1%Z)] running_session in
  let prompt := run_events [PressStop; Wake; Block impulse_block impulse_block;
                            PressStart (Some 1%Z)] running_session in
  running (processor (run_events [PressStop] running_session)) = false
  /\ prev_buffer (processor (run_events [PressStop] running_session)) = None
  /\ stream_open (run_events [PressStop] running_session) = true
  /\ running (processor late) = true
  /\ stream_open late = true
  /\ (exists cf, prev_buffer (processor late) = Some cf
                 /\ get 0 cf 4 0 = - (1 / 16))
  /\ prev_or_zero (processor late) impulse_block
     <> np.zeros_like impulse_block
  /\ prev_buffer (processor prompt) = None
  /\ prev_or_zero (processor prompt) impulse_block
     = np.zeros_like impulse_block.
Proof.
  intros late prompt.
  split; [reflexivity|]. split; [reflexivity|]. split; [reflexivity|].
  destruct (crossfaded_impulse_block (stop (processor running_session)))
    as [cf [Hcf Hget]]; try reflexivity.
  assert (Hlate : processor late
                  = {| running := true;
                       noise_reduction := 5 / 10;
                       output_device := Some 1%Z;
                       prev_buffer := Some cf;
                       buffer_size := 8;
                       overlap := 5 / 10 |}
                  /\ stream_open late = true).
  { unfold late.
    cbn [run_events step running_session stream_open processor].
    rewrite callback_eq by reflexivity.
    cbn [fst self with_prev_buffer stop running negb andb stream_open
         processor prev_buffer noise_reduction output_device buffer_size
         overlap].
    unfold retained.
    change (crossfaded_block _ impulse_block)
      with (crossfaded_block (stop (processor running_session)) impulse_block).
    rewrite Hcf. split; reflexivity. }
  destruct Hlate as [Hp Ho]. rewrite Hp.
  split; [reflexivity|]. split; [exact Ho|].
  split; [exists cf; split; [reflexivity|exact Hget]|].
  split.
  { unfold prev_or_zero. cbn [prev_buffer]. intros E.
    rewrite E in Hget.
    change (np.zeros_like impulse_block) with (silence 8 1) in Hget.
    rewrite get_silence in Hget. lra. }
  split; reflexivity.
Qed.

(** * Further properties of the callback *)

(** ** The spectral gate *)

(** X1.  The gate returns exactly for channels of at least eight samples,
    and then with [2 * (N / 2)] samples: [N] for even [N], [N - 1] for odd
    [N]. *)
Theorem gate_returns_iff (x : list R) (s : R) :
  (is_ok (gate x s) = true <-> (8 <= length x)%nat)
  /\ (forall out, gate x s = Ok out ->
                  length out = (2 * (length x / 2))%nat).
Proof.
  destruct (Nat.lt_ge_cases (length x) 8) as [H|H].
  - destruct (gate_small x s H) as [e He]. rewrite He. split.
    + cbn [is_ok]. split; [discriminate|lia].
    + discriminate.
  - rewrite (gate_eq x s H). split.
    + cbn [is_ok]. split; [intros _; exact H|reflexivity].
    + intros out E. injection E as <-. now rewrite length_map, length_seq.
Qed.

(** X2.  Smoothing a mask of at least five bins keeps its length and
    replaces every entry by a quarter of each neighbour plus half of itself,
    with zeros beyond both ends; entries in [0, 1] stay in [0, 1].  A
    non-empty mask of fewer than five bins comes back with five entries. *)
Theorem smoothing_is_three_point_average (mask : list R) :
  (5 <= length mask)%nat ->
  exists sm,
    np.convolve_same (np.A1 mask) (np.A1 smoothing_kernel) = Ok sm
    /\ length sm = length mask
    /\ (forall i, (i < length mask)%nat ->
                  nth i sm 0
                  = 1 / 4 * (match i with O => 0 | S p => nth p mask 0 end)
                    + 1 / 2 * nth i mask 0 + 1 / 4 * nth (S i) mask 0)
    /\ ((forall i, 0 <= nth i mask 0 <= 1) ->
        forall i, 0 <= nth i sm 0 <= 1).
Proof.
  intros H. exists (smoothed mask). split; [now apply convolve_same_kernel|].
  split; [apply length_smoothed|].
  assert (Hn : forall i, (i < length mask)%nat ->
                         nth i (smoothed mask) 0 = smooth_at mask i).
  { intros i Hi. unfold smoothed.
    now rewrite (nth_map_seq (smooth_at mask)). }
  split.
  - intros i Hi. rewrite (Hn i Hi). unfold smooth_at.
    replace (i + 1)%nat with (S i) by lia. lra.
  - intros Hb i. destruct (Nat.lt_ge_cases i (length mask)) as [Hi|Hi].
    + rewrite (Hn i Hi). unfold smooth_at.
      pose proof (Hb (i + 1)%nat). pose proof (Hb i).
      destruct i as [|p]; [lra|]. pose proof (Hb p). lra.
    + rewrite nth_overflow by (rewrite length_smoothed; exact Hi). lra.
Qed.

Lemma smoothing_is_three_point_average_witness :
  (5 <= length [1; 1; 0; 1; 1])%nat
  /\ exists sm,
       np.convolve_same (np.A1 [1; 1; 0; 1; 1]) (np.A1 smoothing_kernel)
       = Ok sm
       /\ length sm = 5%nat.
Proof.
  split; [cbn [length]; lia|].
  destruct (smoothing_is_three_point_average [1; 1; 0; 1; 1])
    as [sm (H1 & H2 & _)]; [cbn [length]; lia|].
  exists sm. split; assumption.
Defined.

(** X3.  A non-empty mask of fewer than five bins is smoothed to five
    entries, the length of the kernel. *)
Theorem smoothing_short_mask (mask : list R) :
  (1 <= length mask < 5)%nat ->
  exists sm,
    np.convolve_same (np.A1 mask) (np.A1 smoothing_kernel) = Ok sm
    /\ length sm = 5%nat.
Proof.
  intros H.
  assert (Hk : length smoothing_kernel = 5%nat)
    by (rewrite smoothing_kernel_eq; reflexivity).
  unfold np.convolve_same. cbn [np.len]. rewrite Hk.
  destruct (Nat.ltb_spec (length mask) 5) as [_|H5]; [|lia].
  cbn [np.len]. rewrite Hk. cbn [Nat.eqb].
  destruct (Nat.eqb_spec (length mask) 0) as [Hz|_]; [lia|].
  eexists. split; [reflexivity|].
  now rewrite length_map, length_seq.
Qed.

Lemma smoothing_short_mask_witness :
  (1 <= length [1; 0; 1] < 5)%nat
  /\ exists sm,
       np.convolve_same (np.A1 [1; 0; 1]) (np.A1 smoothing_kernel) = Ok sm
       /\ length sm = 5%nat.
Proof.
  split; [cbn [length]; lia|].
  apply smoothing_short_mask. cbn [length]. lia.
Defined.

(** ** The crossfade *)

Lemma linspace_up_bounds (k i : nat) :
  (i < k)%nat -> 0 <= np.linspace_at 0 1 k i <= 1.
Proof.
  intros Hi. unfold np.linspace_at.
  destruct (Nat.ltb_spec 1 k) as [Hk|Hk]; cbn [andb].
  - destruct (Nat.eqb_spec i (k - 1)) as [_|Hne]; [lra|].
    assert (Hd : 0 < INR (k - 1)) by (apply lt_0_INR; lia).
    assert (Hle : INR i <= INR (k - 1)) by (apply le_INR; lia).
    pose proof (pos_INR i) as Hp.
    replace (0 + INR i * ((1 - 0) / INR (k - 1))) with (INR i / INR (k - 1))
      by (field; lra).
    split.
    + apply Rmult_le_pos; [exact Hp|]. left. now apply Rinv_0_lt_compat.
    + apply (Rmult_le_reg_r (INR (k - 1))); [exact Hd|].
      unfold Rdiv. rewrite Rmult_assoc, Rinv_l by lra. lra.
  - assert (i = 0%nat) as -> by lia. change (INR 0) with 0. lra.
Qed.

Lemma linspace_down (k i : nat) :
  np.linspace_at 1 0 k i = 1 - np.linspace_at 0 1 k i.
Proof.
  unfold np.linspace_at.
  destruct (Nat.ltb 1 k && Nat.eqb i (k - 1)); [lra|].
  unfold Rdiv. ring.
Qed.

Lemma linspace_up_first (k : nat) : np.linspace_at 0 1 k 0 = 0.
Proof.
  unfold np.linspace_at.
  destruct (Nat.ltb_spec 1 k) as [Hk|Hk]; cbn [andb].
  - destruct (Nat.eqb_spec 0 (k - 1)); [lia|].
    change (INR 0) with 0. lra.
  - change (INR 0) with 0. lra.
Qed.

Lemma linspace_up_last (k : nat) :
  (2 <= k)%nat -> np.linspace_at 0 1 k (k - 1) = 1.
Proof.
  intros Hk. unfold np.linspace_at.
  destruct (Nat.ltb_spec 1 k); [|lia].
  now rewrite Nat.eqb_refl.
Qed.

(** X6.  On a block of two or more frames, with a previous block of the
    same shape, the crossfade returns and each of the first [n / 2] frames
    is a convex blend [a * current + (1 - a) * previous], the previous
    frames being the last [n / 2] ones.  The weight [a] depends on the frame
    only, is 0 on the first frame (which is therefore replaced by the
    previous block's frame) and 1 on the last faded frame. *)
Theorem crossfade_convex_blend (cur prev : array2 R) :
  same_shape prev cur = true ->
  (2 <= nrows cur)%nat ->
  let k := (nrows cur / 2)%nat in
  exists out,
    crossfade (overlap AudioProcessor_init) cur prev = Ok out
    /\ forall i j, (i < k)%nat -> (j < ncols cur)%nat ->
         let a := np.linspace_at 0 1 k i in
         get 0 out i j
         = a * get 0 cur i j + (1 - a) * get 0 prev (nrows cur - k + i) j
         /\ 0 <= a <= 1
         /\ (i = 0%nat -> a = 0)
         /\ ((2 <= k)%nat -> i = (k - 1)%nat -> a = 1).
Proof.
  intros Hs Hn k. pose proof (half_bounds (nrows cur)) as Hh.
  exists (blended k cur prev). split.
  - apply crossfade_blend; [apply fade_len_half|unfold k; lia|exact Hs].
  - intros i j Hi Hj a. split; [|split; [|split]].
    + unfold blended. rewrite get_tabulate by (unfold k in Hi; lia).
      destruct (Nat.ltb_spec i k); [|lia].
      rewrite linspace_down. fold a. ring.
    + now apply linspace_up_bounds.
    + intros ->. apply linspace_up_first.
    + intros Hk ->. now apply linspace_up_last.
Qed.

Lemma crossfade_convex_blend_witness :
  same_shape (silence 8 2) (silence 8 2) = true
  /\ (2 <= nrows (silence 8 2))%nat
  /\ exists out,
       crossfade (overlap AudioProcessor_init) (silence 8 2) (silence 8 2)
       = Ok out.
Proof.
  split; [reflexivity|]. split; [cbn [silence tabulate nrows]; lia|].
  destruct (crossfade_convex_blend (silence 8 2) (silence 8 2))
    as [out [H _]]; [reflexivity|cbn [silence tabulate nrows]; lia|].
  exists out. exact H.
Defined.

Lemma get_zeros_like (a : array2 R) (i j : nat) :
  get 0 (np.zeros_like a) i j = 0.
Proof. apply (get_silence (nrows a) (ncols a)). Qed.

(** X7.  The first block of a session: with no block retained, the
    crossfade of a block of the shape of the input is a pure fade-in, each
    of the first [n / 2] frames being the current frame times its ramp
    weight, with nothing added. *)
Theorem first_block_fades_in (s : AudioProcessor) (indata cur : array2 R) :
  prev_buffer s = None ->
  overlap s = overlap AudioProcessor_init ->
  same_shape indata cur = true ->
  (2 <= nrows cur)%nat ->
  exists out,
    crossfade (overlap s) cur (prev_or_zero s indata) = Ok out
    /\ forall i j, (i < nrows cur / 2)%nat -> (j < ncols cur)%nat ->
         get 0 out i j
         = np.linspace_at 0 1 (nrows cur / 2) i * get 0 cur i j.
Proof.
  intros Hp Hov Hs Hn. pose proof (half_bounds (nrows cur)) as Hh.
  unfold prev_or_zero. rewrite Hp, Hov.
  exists (blended (nrows cur / 2) cur (np.zeros_like indata)). split.
  - apply crossfade_blend; [apply fade_len_half|lia|].
    unfold same_shape in *. exact Hs.
  - intros i j Hi Hj. unfold blended.
    rewrite get_tabulate by lia.
    destruct (Nat.ltb_spec i (nrows cur / 2)); [|lia].
    rewrite get_zeros_like. ring.
Qed.

Lemma first_block_fades_in_witness :
  prev_buffer AudioProcessor_init = None
  /\ overlap AudioProcessor_init = overlap AudioProcessor_init
  /\ same_shape (silence 8 2) (silence 8 2) = true
  /\ (2 <= nrows (silence 8 2))%nat
  /\ exists out,
       crossfade (overlap AudioProcessor_init) (silence 8 2)
         (prev_or_zero AudioProcessor_init (silence 8 2)) = Ok out.
Proof.
  split; [reflexivity|]. split; [reflexivity|]. split; [reflexivity|].
  split; [cbn [silence tabulate nrows]; lia|].
  destruct (first_block_fades_in AudioProcessor_init
              (silence 8 2) (silence 8 2)) as [out [H _]];
    [reflexivity|reflexivity|reflexivity|cbn [silence tabulate nrows]; lia|].
  exists out. exact H.
Defined.

(** X8.  Whatever the overlap: when a block of two or more frames has
    nothing to fade, [prev_buffer[-0:]] is the whole previous block, which
    does not broadcast against the empty ramp, and the crossfade raises. *)
Theorem crossfade_nothing_to_fade_raises (ov : R) (cur prev : array2 R) :
  same_shape prev cur = true ->
  fade_len (nrows cur) ov = 0%Z ->
  (2 <= nrows cur)%nat ->
  is_ok (crossfade ov cur prev) = false.
Proof.
  intros Hs Hfl Hn. unfold same_shape in Hs.
  apply andb_prop in Hs. destruct Hs as [Hr Hc].
  apply Nat.eqb_eq in Hr. apply Nat.eqb_eq in Hc.
  unfold crossfade. rewrite Hfl.
  change (np.linspace 0 1 0) with (Ok (@nil R)).
  change (np.linspace 1 0 0) with (Ok (@nil R)).
  cbn [rbind Z.to_nat]. unfold islice_op at 1.
  cbn [newaxis length nrows ncols tabulate Nat.min].
  rewrite fits_refl, fits_one. cbn [andb rbind].
  unfold bop, last_rows. cbn [Nat.eqb nrows ncols tabulate newaxis length].
  rewrite Nat.sub_0_r, Hr.
  assert (Hb : bdim (nrows cur) 0 = None).
  { unfold bdim. destruct (Nat.eqb_spec (nrows cur) 0); [lia|].
    destruct (Nat.eqb_spec (nrows cur) 1); [lia|]. reflexivity. }
  rewrite Hb. reflexivity.
Qed.

Lemma fade_len_tenth_of_four : fade_len 4 (1 / 10) = 0%Z.
Proof.
  unfold fade_len. apply py_int_small.
  change (INR 4) with (1 + 1 + 1 + 1). lra.
Qed.

Lemma crossfade_nothing_to_fade_raises_witness :
  same_shape (silence 4 1) (silence 4 1) = true
  /\ fade_len (nrows (silence 4 1)) (1 / 10) = 0%Z
  /\ (2 <= nrows (silence 4 1))%nat
  /\ is_ok (crossfade (1 / 10) (silence 4 1) (silence 4 1)) = false.
Proof.
  split; [reflexivity|]. split; [exact fade_len_tenth_of_four|].
  split; [cbn [silence tabulate nrows]; lia|].
  apply crossfade_nothing_to_fade_raises.
  - reflexivity.
  - exact fade_len_tenth_of_four.
  - cbn [silence tabulate nrows]. lia.
Defined.

(** ** The normalisation *)

Lemma peak_shape (a : array2 R) (p : R) :
  peak a = Ok p -> (0 < nrows a)%nat /\ (0 < ncols a)%nat.
Proof.
  unfold peak. intros E. apply np_max_in in E.
  apply in_map_iff in E. destruct E as [x [_ Hx]].
  apply in_entries in Hx. destruct Hx as [i [j (Hi & Hj & _)]]. lia.
Qed.

(** X9.  The normalisation raises exactly on a block without entries (no
    frame or no channel), where [np.max] has nothing to reduce; otherwise
    it returns a block of the same shape. *)
Theorem normalize_returns_iff (a : array2 R) :
  (is_ok (normalize a) = true <-> (0 < nrows a)%nat /\ (0 < ncols a)%nat)
  /\ (forall out, normalize a = Ok out ->
                  nrows out = nrows a /\ ncols out = ncols a).
Proof.
  split; [|intros out; apply normalize_shape].
  split.
  - unfold normalize. destruct (peak a) as [p|e] eqn:E; [|discriminate].
    intros _. now apply (peak_shape a p).
  - intros [Hr Hc]. destruct (normalize_ok a Hr Hc) as [out [H _]].
    now rewrite H.
Qed.

Lemma np_max_unique (l : list R) (q : R) :
  In q l -> (forall y, In y l -> y <= q) -> np.max l = Ok q.
Proof.
  intros Hin Hle.
  destruct (np_max_ok l) as [p Hp]; [intros E; now rewrite E in Hin|].
  pose proof (np_max_in _ _ Hp) as H1.
  pose proof (np_max_ge _ _ Hp q Hin) as H2.
  pose proof (Hle p H1) as H3.
  rewrite Hp. f_equal. lra.
Qed.

(** The peak of a normalised block with a positive peak is exactly 0.9. *)
Lemma peak_normalized (a : array2 R) (p : R) :
  peak a = Ok p -> 0 < p ->
  peak (amap (fun x => x / p * (9 / 10)) a) = Ok (9 / 10).
Proof.
  intros Hp Hpos.
  assert (Hget : forall i j, (i < nrows a)%nat -> (j < ncols a)%nat ->
                   get 0 (amap (fun x => x / p * (9 / 10)) a) i j
                   = get 0 a i j / p * (9 / 10)).
  { intros i j Hi Hj. unfold amap. now rewrite get_tabulate. }
  unfold peak. apply np_max_unique.
  - pose proof Hp as Hin. unfold peak in Hin. apply np_max_in in Hin.
    apply in_map_iff in Hin. destruct Hin as [x [Hx Hxin]].
    apply in_entries in Hxin. destruct Hxin as [i [j (Hi & Hj & ->)]].
    apply in_map_iff. exists (get 0 a i j / p * (9 / 10)). split.
    + assert (Hinv : 0 < / p) by now apply Rinv_0_lt_compat.
      replace (get 0 a i j / p * (9 / 10))
        with (get 0 a i j * (/ p * (9 / 10))) by (unfold Rdiv; ring).
      rewrite Rabs_mult, Hx, (Rabs_pos_eq (/ p * (9 / 10))) by nra.
      field. lra.
    + apply in_entries. exists i, j.
      cbn [amap tabulate nrows ncols]. repeat split; try assumption.
      symmetry. now apply Hget.
  - intros y Hy. apply in_map_iff in Hy. destruct Hy as [x [<- Hx]].
    apply in_entries in Hx. destruct Hx as [i [j (Hi & Hj & ->)]].
    cbn [amap tabulate nrows ncols] in Hi, Hj.
    rewrite Hget by assumption.
    apply Rabs_scaled; [exact Hpos|]. now apply (peak_ge a).
Qed.

(** X10.  Normalising is idempotent: a normalised block with a positive
    peak has peak exactly 0.9 and is left as it is by a second
    normalisation (a block of peak 0 is left as it is by the first). *)
Theorem normalize_idempotent (a out : array2 R) :
  normalize a = Ok out ->
  normalize out = Ok out
  /\ (forall p, peak a = Ok p -> 0 < p -> peak out = Ok (9 / 10)).
Proof.
  unfold normalize at 1. destruct (peak a) as [p|e] eqn:Hp; [|discriminate].
  cbn [rbind]. destruct (Rlt_dec 0 p) as [Hpos|Hn]; intros E; injection E as <-.
  - pose proof (peak_normalized a p Hp Hpos) as Hq. split.
    + unfold normalize. rewrite Hq. cbn [rbind].
      destruct (Rlt_dec 0 (9 / 10)) as [_|H]; [|lra].
      f_equal.
      set (f := fun x : R => x / p * (9 / 10)).
      unfold amap at 1.
      change (nrows (amap f a)) with (nrows a).
      change (ncols (amap f a)) with (ncols a).
      unfold amap at 2.
      apply tabulate_ext. intros i j Hi Hj.
      unfold amap. rewrite get_tabulate by assumption. field.
    + intros p' Hp' _. exact Hq.
  - split.
    + unfold normalize. rewrite Hp. cbn [rbind].
      destruct (Rlt_dec 0 p); [contradiction|reflexivity].
    + intros p' Hp' Hpos. injection Hp' as ->. contradiction.
Qed.

Lemma normalize_half_and_two :
  normalize (mk2 1 2 [[1 / 2; - 2]])
  = Ok (amap (fun x => x / Rmax (Rabs (1 / 2)) (Rabs (- 2)) * (9 / 10))
             (mk2 1 2 [[1 / 2; - 2]])).
Proof.
  unfold normalize, peak.
  change (entries (mk2 1 2 [[1 / 2; - 2]])) with [1 / 2; - 2].
  cbn [map np.max fold_left rbind].
  destruct (Rlt_dec 0 (Rmax (Rabs (1 / 2)) (Rabs (- 2)))) as [_|H];
    [reflexivity|].
  exfalso. apply H.
  apply Rlt_le_trans with (Rabs (1 / 2)); [|apply Rmax_l].
  rewrite Rabs_pos_eq; lra.
Qed.

Lemma normalize_idempotent_witness :
  normalize (mk2 1 2 [[1 / 2; - 2]])
  = Ok (amap (fun x => x / Rmax (Rabs (1 / 2)) (Rabs (- 2)) * (9 / 10))
             (mk2 1 2 [[1 / 2; - 2]]))
  /\ normalize
       (amap (fun x => x / Rmax (Rabs (1 / 2)) (Rabs (- 2)) * (9 / 10))
             (mk2 1 2 [[1 / 2; - 2]]))
     = Ok (amap (fun x => x / Rmax (Rabs (1 / 2)) (Rabs (- 2)) * (9 / 10))
                (mk2 1 2 [[1 / 2; - 2]])).
Proof.
  split; [exact normalize_half_and_two|].
  apply (normalize_idempotent (mk2 1 2 [[1 / 2; - 2]]) _
           normalize_half_and_two).
Defined.

(** ** The first section and the callback as a whole *)

Lemma process_channels_ok (nr : R) (chs : list nat) (a : array2 R) :
  (8 <= nrows a)%nat -> Nat.even (nrows a) = true ->
  exists out, process_channels nr chs a = Ok out.
Proof.
  revert a. induction chs as [|ch rest IH]; intros a Hn He.
  - eexists. reflexivity.
  - cbn [process_channels].
    rewrite gate_eq by (now rewrite length_column). cbn [rbind].
    unfold set_column. rewrite length_map, length_seq, length_column.
    rewrite (even_half _ He), fits_refl. cbn [rbind].
    apply IH; cbn [tabulate nrows]; assumption.
Qed.

(** X11.  On a block with at least one channel, delivered to a processor
    with the overlap it was created with and no previous block of another
    shape, the first section runs to its end exactly when the block has an
    even number, at least eight, of frames; in every other case it raises
    and its handler stores the raw input. *)
Theorem section1_completes_iff (s : AudioProcessor)
  (indata outdata0 : array2 R) :
  same_shape indata outdata0 = true ->
  (0 < ncols indata)%nat ->
  overlap s = overlap AudioProcessor_init ->
  (forall p, prev_buffer s = Some p -> same_shape p indata = true) ->
  (is_ok (snd (section1 indata (mkEnv s outdata0))) = true
   <-> (8 <= nrows indata)%nat /\ Nat.even (nrows indata) = true).
Proof.
  intros Hs Hc Hov Hprev. split.
  - intros Hok. rewrite section1_eq in Hok. cbn [self] in Hok.
    destruct (crossfaded_block s indata) as [cf|x] eqn:E; [|discriminate].
    unfold crossfaded_block in E.
    destruct (process_channels _ _ indata) as [a|] eqn:Ea; [|discriminate].
    rewrite (seq_0_pos _ Hc) in Ea.
    split; [now apply (process_channels_frames _ _ _ _ _ Ea)|].
    destruct (Nat.even (nrows indata)) eqn:Ev; [reflexivity|].
    assert (Hodd : Nat.odd (nrows indata) = true)
      by (rewrite <- Nat.negb_even, Ev; reflexivity).
    destruct (process_channels_odd (noise_reduction s) 0
                (seq 1 (ncols indata - 1)) indata Hodd) as [x Hx].
    rewrite Hx in Ea. discriminate.
  - intros [Hn He]. rewrite section1_eq. cbn [self outdata].
    unfold crossfaded_block.
    destruct (process_channels_ok (noise_reduction s)
                (seq 0 (ncols indata)) indata Hn He) as [a Ha].
    rewrite Ha. cbn [rbind].
    pose proof (process_channels_shape _ _ _ _ Ha) as [Hr1 Hc1].
    assert (Hsh : same_shape (prev_or_zero s indata) a = true).
    { unfold same_shape. rewrite Hr1, Hc1. unfold prev_or_zero.
      destruct (prev_buffer s) as [p|] eqn:Ep.
      - apply (Hprev p eq_refl).
      - cbn [np.zeros_like tabulate nrows ncols]. now rewrite !Nat.eqb_refl. }
    rewrite Hov. destruct (crossfade_returns a _ Hsh) as [cf Hcf].
    rewrite Hcf.
    pose proof (crossfade_frame _ _ _ _ Hcf) as (Hr2 & Hc2 & _).
    destruct (normalize_ok cf) as [out (Hno & Hr3 & Hc3)]; [lia|lia|].
    cbn zeta. rewrite Hno. unfold write_outdata. cbn [outdata].
    unfold same_shape in Hs. apply andb_prop in Hs. destruct Hs as [Hs1 Hs2].
    apply Nat.eqb_eq in Hs1, Hs2.
    rewrite setitem_all_same by congruence. reflexivity.
Qed.

Lemma section1_completes_iff_witness :
  same_shape (silence 8 1) (silence 8 1) = true
  /\ (0 < ncols (silence 8 1))%nat
  /\ is_ok (snd (section1 (silence 8 1)
                   (mkEnv AudioProcessor_init (silence 8 1)))) = true.
Proof.
  split; [reflexivity|]. split; [cbn [silence tabulate ncols]; lia|].
  apply (section1_completes_iff AudioProcessor_init
           (silence 8 1) (silence 8 1)).
  - reflexivity.
  - cbn [silence tabulate ncols]. lia.
  - reflexivity.
  - intros p Hp. discriminate Hp.
  - split; [cbn [silence tabulate nrows]; lia|reflexivity].
Defined.

(** X12.  Across a callback the processor keeps its configuration: the
    running flag, the strength, the output device, the block size and the
    overlap are untouched; afterwards a previous block is always retained;
    and if the block retained before (if any) had the shape of the input,
    so has the block retained after. *)
Theorem callback_keeps_configuration (s : AudioProcessor)
  (indata outdata0 : array2 R) :
  same_shape indata outdata0 = true ->
  let s' := self (fst (callback s indata outdata0)) in
  running s' = running s
  /\ noise_reduction s' = noise_reduction s
  /\ output_device s' = output_device s
  /\ buffer_size s' = buffer_size s
  /\ overlap s' = overlap s
  /\ (exists p, prev_buffer s' = Some p)
  /\ ((forall p, prev_buffer s = Some p -> same_shape p indata = true) ->
      forall p', prev_buffer s' = Some p' -> same_shape p' indata = true).
Proof.
  intros Hs s'. unfold s'. rewrite (callback_eq _ _ _ Hs).
  cbn [fst self prev_buffer with_prev_buffer running noise_reduction
       output_device buffer_size overlap].
  repeat (split; [reflexivity|]).
  split; [eexists; reflexivity|].
  intros Hprev p' E. injection E as <-.
  unfold retained.
  destruct (crossfaded_block s indata) as [cf|x] eqn:Ecf.
  - unfold crossfaded_block in Ecf.
    destruct (process_channels _ _ indata) as [a|] eqn:Ea; [|discriminate].
    cbn [rbind] in Ecf.
    apply process_channels_shape in Ea. destruct Ea as [Hr1 Hc1].
    apply crossfade_frame in Ecf. destruct Ecf as (Hr2 & Hc2 & _).
    unfold same_shape. rewrite Hr2, Hc2, Hr1, Hc1.
    now rewrite !Nat.eqb_refl.
  - unfold prev_or_zero. destruct (prev_buffer s) as [p|] eqn:Ep.
    + apply (Hprev p eq_refl).
    + unfold same_shape. cbn [np.zeros_like tabulate nrows ncols].
      now rewrite !Nat.eqb_refl.
Qed.

Lemma callback_keeps_configuration_witness :
  same_shape (silence 9 1) (silence 9 1) = true
  /\ overlap (self (fst (callback AudioProcessor_init
                           (silence 9 1) (silence 9 1))))
     = overlap AudioProcessor_init.
Proof.
  split; [reflexivity|].
  apply (callback_keeps_configuration AudioProcessor_init
           (silence 9 1) (silence 9 1)).
  reflexivity.
Defined.

Lemma column_set_column (a out : array2 R) (ch ch' : nat) (v : list R) :
  set_column a ch v = Ok out -> length v = nrows a ->
  (ch' < ncols a)%nat ->
  column out ch' = if Nat.eqb ch' ch then v else column a ch'.
Proof.
  unfold set_column. intros E Hlen Hc.
  rewrite Hlen, fits_refl in E. injection E as <-.
  unfold column. cbn [tabulate nrows].
  destruct (Nat.eqb_spec ch' ch) as [->|Hne].
  - transitivity (map (fun i => nth i v 0) (seq 0 (nrows a)));
      [|rewrite <- Hlen; apply map_nth_seq].
    apply map_ext_in. intros i Hi. apply in_seq in Hi.
    change (mk2 (nrows a) (ncols a) ?r) with
      (tabulate (nrows a) (ncols a)
         (fun i j => if Nat.eqb j ch
                     then nth (if Nat.eqb (nrows a) 1 then 0%nat else i) v 0
                     else get 0 a i j)).
    rewrite get_tabulate by lia. rewrite Nat.eqb_refl.
    destruct (Nat.eqb_spec (nrows a) 1) as [H1|_]; [|reflexivity].
    now replace i with 0%nat by lia.
  - apply map_ext_in. intros i Hi. apply in_seq in Hi.
    change (mk2 (nrows a) (ncols a) ?r) with
      (tabulate (nrows a) (ncols a)
         (fun i j => if Nat.eqb j ch
                     then nth (if Nat.eqb (nrows a) 1 then 0%nat else i) v 0
                     else get 0 a i j)).
    rewrite get_tabulate by lia.
    destruct (Nat.eqb_spec ch' ch); [contradiction|reflexivity].
Qed.

Lemma process_channels_columns (nr : R) (chs : list nat) (a out : array2 R) :
  NoDup chs ->
  (forall ch, In ch chs -> (ch < ncols a)%nat) ->
  process_channels nr chs a = Ok out ->
  forall ch, (ch < ncols a)%nat ->
    (In ch chs -> gate (column a ch) nr = Ok (column out ch))
    /\ (~ In ch chs -> column out ch = column a ch).
Proof.
  revert a. induction chs as [|c rest IH]; intros a Hnd Hin E ch Hch.
  - cbn [process_channels] in E. injection E as <-.
    split; [intros []|reflexivity].
  - cbn [process_channels] in E.
    destruct (gate (column a c) nr) as [v|] eqn:Eg; [|discriminate].
    cbn [rbind] in E.
    destruct (set_column a c v) as [a'|] eqn:Es; [|discriminate].
    cbn [rbind] in E.
    assert (Hlen : length v = nrows a).
    { assert (H8 : (8 <= nrows a)%nat).
      { destruct (Nat.lt_ge_cases (nrows a) 8) as [Hlt|Hge]; [|exact Hge].
        destruct (gate_small (column a c) nr) as [e He];
          [now rewrite length_column|].
        rewrite He in Eg. discriminate. }
      assert (Hv : length v = (2 * (nrows a / 2))%nat).
      { rewrite gate_eq in Eg by (now rewrite length_column).
        injection Eg as <-.
        now rewrite length_map, length_seq, length_column. }
      pose proof (half_bounds (nrows a)).
      unfold set_column, fits in Es.
      destruct (Nat.eqb_spec (length v) (nrows a)) as [Hq|Hq]; [exact Hq|].
      destruct (Nat.eqb_spec (length v) 1) as [H1|H1]; [lia|].
      discriminate Es. }
    pose proof (set_column_shape _ _ _ _ Es) as [Hr Hc].
    inversion Hnd as [|c' rest' Hnotin Hnd']. subst c' rest'.
    assert (Hin' : forall ch0, In ch0 rest -> (ch0 < ncols a')%nat).
    { intros ch0 H0. rewrite Hc. apply Hin. now right. }
    assert (Hch' : (ch < ncols a')%nat) by (now rewrite Hc).
    destruct (IH a' Hnd' Hin' E ch Hch') as [IH1 IH2].
    pose proof (column_set_column a a' c ch v Es Hlen Hch) as Hcol.
    split.
    + intros [->|Hrest].
      * rewrite Nat.eqb_refl in Hcol.
        rewrite (IH2 Hnotin), Hcol. exact Eg.
      * destruct (Nat.eqb_spec ch c) as [->|Hne]; [contradiction|].
        rewrite <- Hcol. now apply IH1.
    + intros Hnot.
      destruct (Nat.eqb_spec ch c) as [->|Hne];
        [exfalso; apply Hnot; now left|].
      rewrite IH2 by (intros H0; apply Hnot; now right). exact Hcol.
Qed.

(** X13.  The channels are processed independently: when the loop over the
    channels returns, every channel of its result is the gate of the same
    channel of the input block, and the block keeps its shape. *)
Theorem channels_are_independent (nr : R) (a out : array2 R) :
  process_channels nr (seq 0 (ncols a)) a = Ok out ->
  nrows out = nrows a /\ ncols out = ncols a
  /\ forall ch, (ch < ncols a)%nat ->
                gate (column a ch) nr = Ok (column out ch).
Proof.
  intros E. pose proof (process_channels_shape _ _ _ _ E) as [Hr Hc].
  split; [exact Hr|]. split; [exact Hc|].
  intros ch Hch.
  apply (process_channels_columns nr (seq 0 (ncols a)) a out);
    try assumption.
  - apply seq_NoDup.
  - intros c Hin. apply in_seq in Hin. lia.
  - apply in_seq. lia.
Qed.

Lemma channels_are_independent_witness :
  process_channels (5 / 10) (seq 0 (ncols (silence 8 2))) (silence 8 2)
  = Ok (silence 8 2)
  /\ gate (column (silence 8 2) 1) (5 / 10) = Ok (column (silence 8 2) 1).
Proof.
  assert (H : process_channels (5 / 10) (seq 0 (ncols (silence 8 2)))
                (silence 8 2) = Ok (silence 8 2))
    by (apply process_channels_silence; [lia|reflexivity]).
  split; [exact H|].
  apply (channels_are_independent (5 / 10) (silence 8 2) (silence 8 2) H).
  cbn [silence tabulate ncols]. lia.
Defined.

(** * Properties of the stream set-up and of the window *)

(** ** Substrings *)

Lemma prefix_occurs (sub s : string) :
  startswith sub s = true <-> exists post, s = (sub ++ post)%string.
Proof.
  revert s. induction sub as [|c sub IH]; intros s.
  - cbn [startswith]. split; [intros _; exists s; reflexivity|reflexivity].
  - destruct s as [|c' s'].
    + cbn [startswith]. split; [discriminate|].
      intros [post H]. discriminate H.
    + cbn [startswith]. rewrite andb_true_iff, Ascii.eqb_eq, IH. split.
      * intros [-> [post ->]]. exists post. reflexivity.
      * intros [post H]. cbn [append] in H. injection H as -> ->.
        split; [reflexivity|]. now exists post.
Qed.

Lemma contains_occurs (sub s : string) :
  contains sub s = true <-> occurs_in sub s.
Proof.
  unfold occurs_in. induction s as [|c s IH].
  - cbn [contains]. rewrite orb_false_r, prefix_occurs. split.
    + intros [post H]. exists EmptyString, post. exact H.
    + intros [pre [post H]]. destruct pre as [|c pre]; [|discriminate H].
      exists post. exact H.
  - cbn [contains]. rewrite orb_true_iff, prefix_occurs, IH. split.
    + intros [[post H]|[pre [post H]]].
      * exists EmptyString, post. exact H.
      * exists (String c pre), post. cbn [append]. now rewrite H.
    + intros [pre [post H]]. destruct pre as [|c' pre].
      * left. exists post. exact H.
      * right. cbn [append] in H. injection H as _ H.
        exists pre, post. exact H.
Qed.

Lemma is_virtual_cable_spec (d : DeviceInfo) :
  is_virtual_cable d = true <-> virtual_cable_name (name d).
Proof.
  unfold is_virtual_cable, virtual_cable_name.
  now rewrite orb_true_iff, !contains_occurs.
Qed.

(** ** The search for the input device *)

Lemma find_input_device_some (i0 : nat) (devices : list DeviceInfo) (i : nat) :
  find_input_device i0 devices = Some i <->
  (i0 <= i)%nat
  /\ (exists d, nth_error devices (i - i0) = Some d
                /\ is_virtual_cable d = true)
  /\ (forall j d, (j < i - i0)%nat -> nth_error devices j = Some d ->
                  is_virtual_cable d = false).
Proof.
  revert i0. induction devices as [|d0 rest IH]; intros i0.
  - cbn [find_input_device]. split; [discriminate|].
    intros (_ & [d [H _]] & _). destruct (i - i0)%nat; discriminate H.
  - cbn [find_input_device]. destruct (is_virtual_cable d0) eqn:E0.
    + split.
      * intros H. injection H as <-. rewrite Nat.sub_diag.
        split; [lia|]. split; [exists d0; now split|]. intros j d Hj. lia.
      * intros (Hle & _ & Hfirst).
        destruct (i - i0)%nat as [|k] eqn:Ek; [f_equal; lia|].
        specialize (Hfirst 0%nat d0 ltac:(lia) eq_refl). congruence.
    + rewrite IH. split.
      * intros (Hle & [d [Hd Hv]] & Hfirst).
        replace (i - i0)%nat with (S (i - S i0)) by lia.
        split; [lia|]. split; [exists d; now split|].
        intros [|j] d' Hj Hn.
        -- cbn [nth_error] in Hn. now injection Hn as <-.
        -- cbn [nth_error] in Hn. apply (Hfirst j d'); [lia|exact Hn].
      * intros (Hle & [d [Hd Hv]] & Hfirst).
        destruct (i - i0)%nat as [|k] eqn:Ek.
        -- cbn [nth_error] in Hd. injection Hd as <-. congruence.
        -- cbn [nth_error] in Hd.
           replace (i - S i0)%nat with k by lia.
           split; [lia|]. split; [exists d; now split|].
           intros j d' Hj Hn. apply (Hfirst (S j) d'); [lia|exact Hn].
Qed.

Lemma find_input_device_none (i0 : nat) (devices : list DeviceInfo) :
  find_input_device i0 devices = None <->
  Forall (fun d => is_virtual_cable d = false) devices.
Proof.
  revert i0. induction devices as [|d0 rest IH]; intros i0.
  - cbn [find_input_device]. split; [constructor|reflexivity].
  - cbn [find_input_device]. destruct (is_virtual_cable d0) eqn:E0.
    + split; [discriminate|]. intros H. inversion H. congruence.
    + rewrite IH. split.
      * intros H. now constructor.
      * intros H. now inversion H.
Qed.

(** X14.  [run] takes as input device the first device whose name contains
    "BlackHole" or "Soundflower", and finds none exactly when no name
    does. *)
Theorem input_device_is_first_virtual_cable (devices : list DeviceInfo) :
  (forall i,
     find_input_device 0 devices = Some i <->
     (exists d, nth_error devices i = Some d /\ virtual_cable_name (name d))
     /\ (forall j d, (j < i)%nat -> nth_error devices j = Some d ->
                     ~ virtual_cable_name (name d)))
  /\ (find_input_device 0 devices = None <->
      forall d, In d devices -> ~ virtual_cable_name (name d)).
Proof.
  split.
  - intros i. rewrite find_input_device_some, Nat.sub_0_r. split.
    + intros (_ & [d [Hd Hv]] & Hfirst). split.
      * exists d. split; [exact Hd|]. now apply is_virtual_cable_spec.
      * intros j d' Hj Hn Hv'. apply is_virtual_cable_spec in Hv'.
        rewrite (Hfirst j d' Hj Hn) in Hv'. discriminate.
    + intros ([d [Hd Hv]] & Hfirst). split; [lia|]. split.
      * exists d. split; [exact Hd|]. now apply is_virtual_cable_spec.
      * intros j d' Hj Hn. destruct (is_virtual_cable d') eqn:E; [|reflexivity].
        exfalso. apply (Hfirst j d' Hj Hn). now apply is_virtual_cable_spec.
  - rewrite find_input_device_none, Forall_forall. split.
    + intros H d Hd Hv. apply is_virtual_cable_spec in Hv.
      rewrite (H d Hd) in Hv. discriminate.
    + intros H d Hd. destruct (is_virtual_cable d) eqn:E; [|reflexivity].
      exfalso. apply (H d Hd). now apply is_virtual_cable_spec.
Qed.

(** ** The set-up of the stream *)

(** X15.  When no device name contains "BlackHole" or "Soundflower", [run]
    fails with the message "No BlackHole or Soundflower device found." and
    clears the running flag, whether or not an output device has been
    selected: the input device is looked for first. *)
Theorem run_without_input_device (query_error : Z -> exn)
  (devices : list DeviceInfo) (s : AudioProcessor) :
  (forall d, In d devices -> ~ virtual_cable_name (name d)) ->
  run_until_stream query_error devices s
  = (with_running s false, inl "No BlackHole or Soundflower device found.").
Proof.
  intros H.
  assert (Hnone : find_input_device 0 devices = None).
  { apply find_input_device_none. apply Forall_forall. intros d Hd.
    destruct (is_virtual_cable d) eqn:E; [|reflexivity].
    exfalso. apply (H d Hd). now apply is_virtual_cable_spec. }
  unfold run_until_stream, run_setup. now rewrite Hnone.
Qed.

Lemma run_without_input_device_witness :
  (forall d, In d [mkDeviceInfo "Built-in Output" 0 2 48000] ->
             ~ virtual_cable_name (name d))
  /\ run_until_stream (fun _ => ValueError "Error querying device")
       [mkDeviceInfo "Built-in Output" 0 2 48000] AudioProcessor_init
     = (with_running AudioProcessor_init false,
        inl "No BlackHole or Soundflower device found.").
Proof.
  assert (H : forall d, In d [mkDeviceInfo "Built-in Output" 0 2 48000] ->
                        ~ virtual_cable_name (name d)).
  { intros d [<-|[]] Hv. apply is_virtual_cable_spec in Hv. discriminate Hv. }
  split; [exact H|].
  apply run_without_input_device. exact H.
Defined.

Lemma find_input_device_exists (devices : list DeviceInfo) (d : DeviceInfo) :
  In d devices -> virtual_cable_name (name d) ->
  exists i, find_input_device 0 devices = Some i.
Proof.
  intros Hd Hv. destruct (find_input_device 0 devices) as [i|] eqn:E.
  - now exists i.
  - apply find_input_device_none in E. rewrite Forall_forall in E.
    apply is_virtual_cable_spec in Hv. rewrite (E d Hd) in Hv. discriminate.
Qed.

(** X16.  With a device whose name contains "BlackHole" or "Soundflower"
    but no output device selected, [run] fails with the message
    "No output device selected." and clears the running flag. *)
Theorem run_without_output_device (query_error : Z -> exn)
  (devices : list DeviceInfo) (s : AudioProcessor) (d : DeviceInfo) :
  In d devices -> virtual_cable_name (name d) ->
  output_device s = None ->
  run_until_stream query_error devices s
  = (with_running s false, inl "No output device selected.").
Proof.
  intros Hd Hv Ho.
  destruct (find_input_device_exists devices d Hd Hv) as [i Hi].
  unfold run_until_stream, run_setup. now rewrite Hi, Ho.
Qed.

Lemma blackhole_is_virtual_cable : virtual_cable_name "BlackHole 2ch".
Proof. left. exists EmptyString, " 2ch"%string. reflexivity. Qed.

Lemma run_without_output_device_witness :
  In (mkDeviceInfo "BlackHole 2ch" 2 2 48000) example_devices
  /\ virtual_cable_name (name (mkDeviceInfo "BlackHole 2ch" 2 2 48000))
  /\ output_device AudioProcessor_init = None
  /\ run_until_stream (fun _ => ValueError "Error querying device")
       example_devices AudioProcessor_init
     = (with_running AudioProcessor_init false,
        inl "No output device selected.").
Proof.
  assert (Hin : In (mkDeviceInfo "BlackHole 2ch" 2 2 48000) example_devices)
    by (right; right; left; reflexivity).
  split; [exact Hin|]. split; [exact blackhole_is_virtual_cable|].
  split; [reflexivity|].
  apply (run_without_output_device _ _ _ _ Hin blackhole_is_virtual_cable).
  reflexivity.
Defined.

Lemma query_device_nat (query_error : Z -> exn) (devices : list DeviceInfo)
  (i : nat) (d : DeviceInfo) :
  nth_error devices i = Some d ->
  query_device query_error devices (Z.of_nat i) = Ok d.
Proof.
  intros H. unfold query_device.
  destruct (Z.ltb_spec (Z.of_nat i) 0); [lia|].
  now rewrite Nat2Z.id, H.
Qed.

(** X17.  With a virtual-cable device and a selected output device that
    exists, the set-up succeeds and leaves the processor untouched: the
    stream goes from the first virtual-cable device to the selected output
    device at 48000 Hz, with the processor's block size and with as many
    channels as the smaller of the input channels of the one and the output
    channels of the other. *)
Theorem run_opens_stream (query_error : Z -> exn)
  (devices : list DeviceInfo) (s : AudioProcessor)
  (i o : nat) (output_info : DeviceInfo) :
  find_input_device 0 devices = Some i ->
  output_device s = Some (Z.of_nat o) ->
  nth_error devices o = Some output_info ->
  exists input_info args,
    nth_error devices i = Some input_info
    /\ run_until_stream query_error devices s = (s, inr args)
    /\ stream_input args = i
    /\ stream_output args = Z.of_nat o
    /\ samplerate args = 48000%Z
    /\ blocksize args = buffer_size s
    /\ channels args = Z.min (max_input_channels input_info)
                             (max_output_channels output_info)
    /\ (channels args <= max_input_channels input_info)%Z
    /\ (channels args <= max_output_channels output_info)%Z.
Proof.
  intros Hi Ho Hout.
  pose proof Hi as Hfind. apply find_input_device_some in Hfind.
  destruct Hfind as (_ & [input_info [Hin _]] & _).
  rewrite Nat.sub_0_r in Hin.
  exists input_info. eexists. split; [exact Hin|].
  unfold run_until_stream, run_setup. rewrite Hi, Ho.
  rewrite (query_device_nat _ _ _ _ Hin), (query_device_nat _ _ _ _ Hout).
  cbn [rbind]. split; [reflexivity|].
  cbn [stream_input stream_output samplerate blocksize channels].
  repeat (split; [reflexivity|]). split; lia.
Qed.

Lemma run_opens_stream_witness :
  find_input_device 0 example_devices = Some 2%nat
  /\ output_device (with_running
                      {| running := false; noise_reduction := 5 / 10;
                         output_device := Some (Z.of_nat 1);
                         prev_buffer := None; buffer_size := 2048;
                         overlap := 5 / 10 |} true)
     = Some (Z.of_nat 1)
  /\ nth_error example_devices 1 = Some (mkDeviceInfo "Built-in Output" 0 2 48000)
  /\ exists input_info args,
       nth_error example_devices 2 = Some input_info
       /\ run_until_stream (fun _ => ValueError "Error querying device")
            example_devices
            (with_running
               {| running := false; noise_reduction := 5 / 10;
                  output_device := Some (Z.of_nat 1);
                  prev_buffer := None; buffer_size := 2048;
                  overlap := 5 / 10 |} true)
          = (with_running
               {| running := false; noise_reduction := 5 / 10;
                  output_device := Some (Z.of_nat 1);
                  prev_buffer := None; buffer_size := 2048;
                  overlap := 5 / 10 |} true, inr args).
Proof.
  split; [reflexivity|]. split; [reflexivity|]. split; [reflexivity|].
  destruct (run_opens_stream (fun _ => ValueError "Error querying device")
              example_devices
              (with_running
                 {| running := false; noise_reduction := 5 / 10;
                    output_device := Some (Z.of_nat 1);
                    prev_buffer := None; buffer_size := 2048;
                    overlap := 5 / 10 |} true)
              2 1 (mkDeviceInfo "Built-in Output" 0 2 48000))
    as [input_info [args (H1 & H2 & _)]]; try reflexivity.
  exists input_info, args. split; assumption.
Defined.

(** ** The list of output devices *)

Lemma populate_from_items (i : nat) (devices : list DeviceInfo)
  (cb : QComboBox) :
  items (populate_from i devices cb)
  = (items cb ++ output_items i devices)%list.
Proof.
  revert i cb. induction devices as [|d rest IH]; intros i cb.
  - cbn [populate_from output_items]. now rewrite app_nil_r.
  - cbn [populate_from output_items].
    destruct (Z.ltb 0 (max_output_channels d)).
    + rewrite IH. cbn [addItem items]. now rewrite <- app_assoc.
    + apply IH.
Qed.

Lemma populate_from_index (i : nat) (devices : list DeviceInfo)
  (cb : QComboBox) :
  currentIndex (populate_from i devices cb)
  = match items cb, output_items i devices with
    | [], _ :: _ => 0%Z
    | _, _ => currentIndex cb
    end.
Proof.
  revert i cb. induction devices as [|d rest IH]; intros i cb.
  - cbn [populate_from output_items]. now destruct (items cb).
  - cbn [populate_from output_items].
    destruct (Z.ltb 0 (max_output_channels d)).
    + rewrite IH. cbn [addItem items currentIndex].
      destruct (items cb); cbn [app]; now destruct (output_items (S i) rest).
    + apply IH.
Qed.

Lemma in_output_items (i0 : nat) (devices : list DeviceInfo)
  (text : string) (i : nat) :
  In (text, i) (output_items i0 devices) <->
  (i0 <= i)%nat
  /\ exists d, nth_error devices (i - i0) = Some d
               /\ (0 < max_output_channels d)%Z /\ text = name d.
Proof.
  revert i0. induction devices as [|d0 rest IH]; intros i0.
  - cbn [output_items]. split; [intros []|].
    intros (_ & [d [H _]]). destruct (i - i0)%nat; discriminate H.
  - assert (Hrest :
      In (text, i) (output_items (S i0) rest) <->
      (i0 < i)%nat
      /\ exists d, nth_error (d0 :: rest) (i - i0) = Some d
                   /\ (0 < max_output_channels d)%Z /\ text = name d).
    { rewrite IH. split.
      - intros (Hle & [d Hd]). split; [lia|]. exists d.
        replace (i - i0)%nat with (S (i - S i0)) by lia. exact Hd.
      - intros (Hlt & [d Hd]). split; [lia|]. exists d.
        replace (i - i0)%nat with (S (i - S i0)) in Hd by lia. exact Hd. }
    cbn [output_items].
    destruct (Z.ltb_spec 0 (max_output_channels d0)) as [Hpos|Hnon].
    + cbn [In]. rewrite Hrest. split.
      * intros [E|(Hlt & Hd)].
        -- injection E as <- <-. split; [lia|]. exists d0.
           rewrite Nat.sub_diag. now repeat split.
        -- split; [lia|exact Hd].
      * intros (Hle & [d (Hd & Hp & Ht)]).
        destruct (Nat.eq_dec i i0) as [->|Hne].
        -- left. rewrite Nat.sub_diag in Hd. cbn [nth_error] in Hd.
           injection Hd as <-. now subst text.
        -- right. split; [lia|]. now exists d.
    + rewrite Hrest. split.
      * intros (Hlt & Hd). split; [lia|exact Hd].
      * intros (Hle & [d (Hd & Hp & Ht)]).
        destruct (Nat.eq_dec i i0) as [->|Hne].
        -- rewrite Nat.sub_diag in Hd. cbn [nth_error] in Hd.
           injection Hd as <-. lia.
        -- split; [lia|]. now exists d.
Qed.

Lemma output_items_sorted (i0 : nat) (devices : list DeviceInfo) :
  StronglySorted lt (map snd (output_items i0 devices)).
Proof.
  revert i0. induction devices as [|d rest IH]; intros i0.
  - cbn [output_items map]. constructor.
  - cbn [output_items]. destruct (Z.ltb 0 (max_output_channels d)).
    + cbn [map snd]. constructor; [apply IH|].
      apply Forall_forall. intros j Hj. apply in_map_iff in Hj.
      destruct Hj as [[text j'] [<- Hin]]. cbn [snd].
      apply in_output_items in Hin. lia.
    + apply IH.
Qed.

Lemma output_items_first (i0 : nat) (devices : list DeviceInfo) :
  option_map snd (nth_error (output_items i0 devices) 0)
  = first_output i0 devices.
Proof.
  revert i0. induction devices as [|d rest IH]; intros i0.
  - reflexivity.
  - cbn [output_items first_output].
    destruct (Z.ltb 0 (max_output_channels d)); [reflexivity|apply IH].
Qed.

Lemma populate_currentData (devices : list DeviceInfo) :
  currentData (populate_output_devices devices (mkQComboBox [] (-1)))
  = first_output 0 devices.
Proof.
  unfold currentData, populate_output_devices.
  rewrite populate_from_index, populate_from_items. cbn [items currentIndex app].
  rewrite <- output_items_first.
  destruct (output_items 0 devices) as [|it rest]; reflexivity.
Qed.

Lemma first_output_some (i0 : nat) (devices : list DeviceInfo) (o : nat) :
  first_output i0 devices = Some o ->
  (i0 <= o)%nat
  /\ exists d, nth_error devices (o - i0) = Some d
               /\ (0 < max_output_channels d)%Z.
Proof.
  revert i0. induction devices as [|d0 rest IH]; intros i0.
  - discriminate.
  - cbn [first_output].
    destruct (Z.ltb_spec 0 (max_output_channels d0)) as [Hpos|Hnon].
    + intros E. injection E as <-. split; [lia|]. exists d0.
      rewrite Nat.sub_diag. now split.
    + intros E. apply IH in E. destruct E as (Hle & [d Hd]).
      split; [lia|]. exists d.
      replace (o - i0)%nat with (S (o - S i0)) by lia. exact Hd.
Qed.

Lemma first_output_none (i0 : nat) (devices : list DeviceInfo) :
  first_output i0 devices = None <->
  Forall (fun d => (max_output_channels d <= 0)%Z) devices.
Proof.
  revert i0. induction devices as [|d0 rest IH]; intros i0.
  - cbn [first_output]. split; [constructor|reflexivity].
  - cbn [first_output].
    destruct (Z.ltb_spec 0 (max_output_channels d0)) as [Hpos|Hnon].
    + split; [discriminate|]. intros H. inversion H. lia.
    + rewrite IH. split.
      * intros H. now constructor.
      * intros H. now inversion H.
Qed.

(** X18.  The device list of the window holds exactly the devices with at
    least one output channel, each under its name and with its index among
    all devices as data, in the order of the devices.  The selection made at
    start-up is the first of them, and there is none exactly when no device
    has an output channel. *)
Theorem populate_lists_output_devices (devices : list DeviceInfo) :
  let cb := populate_output_devices devices (mkQComboBox [] (-1)) in
  (forall text i,
     In (text, i) (items cb) <->
     exists d, nth_error devices i = Some d
               /\ (0 < max_output_channels d)%Z /\ text = name d)
  /\ StronglySorted lt (map snd (items cb))
  /\ (forall o, currentData cb = Some o ->
        (exists d, nth_error devices o = Some d
                   /\ (0 < max_output_channels d)%Z)
        /\ forall text i, In (text, i) (items cb) -> (o <= i)%nat)
  /\ (currentData cb = None <->
      forall d, In d devices -> (max_output_channels d <= 0)%Z).
Proof.
  intros cb.
  assert (Hitems : items cb = output_items 0 devices).
  { unfold cb, populate_output_devices. now rewrite populate_from_items. }
  assert (Hcur : currentData cb = first_output 0 devices)
    by apply populate_currentData.
  split; [|split; [|split]].
  - intros text i. rewrite Hitems, in_output_items, Nat.sub_0_r.
    split; [intros [_ H]; exact H|intros H; split; [lia|exact H]].
  - rewrite Hitems. apply output_items_sorted.
  - intros o Ho. rewrite Hcur in Ho. split.
    + apply first_output_some in Ho. rewrite Nat.sub_0_r in Ho.
      now destruct Ho.
    + intros text i Hin. rewrite Hitems in Hin.
      rewrite <- output_items_first in Ho.
      pose proof (output_items_sorted 0 devices) as Hs.
      destruct (output_items 0 devices) as [|[t0 o0] rest];
        [discriminate Ho|].
      cbn [nth_error option_map snd] in Ho. injection Ho as ->.
      cbn [map snd] in Hs. inversion Hs as [|x l _ Hall]. subst x l.
      destruct Hin as [E|Hin]; [injection E as _ <-; lia|].
      rewrite Forall_forall in Hall.
      assert (o < i)%nat; [|lia].
      apply Hall. apply in_map_iff. now exists (text, i).
  - rewrite Hcur, first_output_none, Forall_forall. reflexivity.
Qed.

(** ** The button and the slider *)

Lemma toggle_start (w : Window) (p : AudioProcessor) :
  audio_processor (core w) = Some p -> running p = false ->
  Window_toggle_processing w
  = Ok (mkWindow
          (mkAudioDenoiser (noise_slider (core w))
             (Some {| running := true;
                      noise_reduction := noise_reduction p;
                      output_device :=
                        option_map Z.of_nat (currentData (output_combo w));
                      prev_buffer := prev_buffer p;
                      buffer_size := buffer_size p;
                      overlap := overlap p |}))
          (output_combo w) "Stop").
Proof.
  intros Hp Hr. unfold Window_toggle_processing, toggle_processing.
  rewrite Hp, Hr. reflexivity.
Qed.

Lemma toggle_stop (w : Window) (p : AudioProcessor) :
  audio_processor (core w) = Some p -> running p = true ->
  Window_toggle_processing w
  = Ok (mkWindow (mkAudioDenoiser (noise_slider (core w)) (Some (stop p)))
                 (output_combo w) "Start").
Proof.
  intros Hp Hr. unfold Window_toggle_processing, toggle_processing.
  rewrite Hp, Hr. reflexivity.
Qed.

(** X19.  On a stopped window, one press starts the processor with the
    selected output device and relabels the button "Stop", leaving the
    retained block alone; a second press stops it, clears the retained
    block and relabels the button "Start".  The strength, the slider and
    the device list are the same before and after. *)
Theorem toggle_twice (w : Window) (p : AudioProcessor) :
  audio_processor (core w) = Some p ->
  running p = false ->
  exists w1 w2 p1 p2,
    Window_toggle_processing w = Ok w1
    /\ audio_processor (core w1) = Some p1
    /\ running p1 = true
    /\ output_device p1
       = option_map Z.of_nat (currentData (output_combo w))
    /\ prev_buffer p1 = prev_buffer p
    /\ toggle_button w1 = "Stop"
    /\ Window_toggle_processing w1 = Ok w2
    /\ audio_processor (core w2) = Some p2
    /\ running p2 = false
    /\ prev_buffer p2 = None
    /\ output_device p2 = output_device p1
    /\ noise_reduction p2 = noise_reduction p
    /\ overlap p2 = overlap p
    /\ toggle_button w2 = "Start"
    /\ output_combo w2 = output_combo w
    /\ noise_slider (core w2) = noise_slider (core w).
Proof.
  intros Hp Hr. do 4 eexists.
  split; [exact (toggle_start w p Hp Hr)|].
  split; [reflexivity|]. split; [reflexivity|]. split; [reflexivity|].
  split; [reflexivity|]. split; [reflexivity|].
  split; [apply toggle_stop; reflexivity|].
  split; [reflexivity|]. repeat split.
Qed.

Lemma toggle_twice_witness :
  audio_processor
    (core (mkWindow
             (mkAudioDenoiser (mkQSlider 0 100 30 true)
                              (Some AudioProcessor_init))
             (mkQComboBox [("Built-in Output", 1%nat)] 0) "Start"))
  = Some AudioProcessor_init
  /\ running AudioProcessor_init = false
  /\ exists w1,
       Window_toggle_processing
         (mkWindow
            (mkAudioDenoiser (mkQSlider 0 100 30 true)
                             (Some AudioProcessor_init))
            (mkQComboBox [("Built-in Output", 1%nat)] 0) "Start")
       = Ok w1
       /\ toggle_button w1 = "Stop".
Proof.
  split; [reflexivity|]. split; [reflexivity|].
  destruct (toggle_twice
              (mkWindow
                 (mkAudioDenoiser (mkQSlider 0 100 30 true)
                                  (Some AudioProcessor_init))
                 (mkQComboBox [("Built-in Output", 1%nat)] 0) "Start")
              AudioProcessor_init eq_refl eq_refl)
    as [w1 [w2 [p1 [p2 (H1 & _ & _ & _ & _ & H6 & _)]]]].
  exists w1. split; assumption.
Defined.

(** X20.  A press of the button on a stopped window, when no device name
    contains "BlackHole" or "Soundflower": [run] fails at once, and the
    window is back to "Start" with the processor not running and its
    strength unchanged; the message is the one of the missing input device
    even if no output device was selected. *)
Theorem press_button_without_input_device (query_error : Z -> exn)
  (devices : list DeviceInfo) (w : Window) (p : AudioProcessor) :
  audio_processor (core w) = Some p ->
  running p = false ->
  (forall d, In d devices -> ~ virtual_cable_name (name d)) ->
  exists w' p',
    press_button query_error devices w
    = Ok (w', Some (inl "No BlackHole or Soundflower device found."))
    /\ toggle_button w' = "Start"
    /\ audio_processor (core w') = Some p'
    /\ running p' = false
    /\ noise_reduction p' = noise_reduction p
    /\ output_combo w' = output_combo w.
Proof.
  intros Hp Hr Hnone.
  assert (Hfind : find_input_device 0 devices = None).
  { apply find_input_device_none. apply Forall_forall. intros d Hd.
    destruct (is_virtual_cable d) eqn:E; [|reflexivity].
    exfalso. apply (Hnone d Hd). now apply is_virtual_cable_spec. }
  destruct w as [d combo button]. cbn [core] in Hp.
  do 2 eexists.
  unfold press_button, Window_toggle_processing, toggle_processing.
  cbn [core output_combo]. rewrite Hp, Hr.
  cbn [negb rbind core audio_processor running].
  unfold run_until_stream, run_setup. rewrite Hfind.
  unfold show_error. cbn [core audio_processor rbind str].
  split; [reflexivity|].
  cbn [toggle_button core audio_processor output_combo].
  repeat split.
Qed.

Lemma press_button_without_input_device_witness :
  audio_processor
    (core (mkWindow
             (mkAudioDenoiser (mkQSlider 0 100 30 true)
                              (Some AudioProcessor_init))
             (mkQComboBox [("Built-in Output", 0%nat)] 0) "Start"))
  = Some AudioProcessor_init
  /\ running AudioProcessor_init = false
  /\ (forall d, In d [mkDeviceInfo "Built-in Output" 0 2 48000] ->
                ~ virtual_cable_name (name d))
  /\ exists w' p',
       press_button (fun _ => ValueError "Error querying device")
         [mkDeviceInfo "Built-in Output" 0 2 48000]
         (mkWindow
            (mkAudioDenoiser (mkQSlider 0 100 30 true)
                             (Some AudioProcessor_init))
            (mkQComboBox [("Built-in Output", 0%nat)] 0) "Start")
       = Ok (w', Some (inl "No BlackHole or Soundflower device found."))
       /\ audio_processor (core w') = Some p'
       /\ running p' = false.
Proof.
  assert (H : forall d, In d [mkDeviceInfo "Built-in Output" 0 2 48000] ->
                        ~ virtual_cable_name (name d)).
  { intros d [<-|[]] Hv. apply is_virtual_cable_spec in Hv. discriminate Hv. }
  split; [reflexivity|]. split; [reflexivity|]. split; [exact H|].
  destruct (press_button_without_input_device
              (fun _ => ValueError "Error querying device")
              [mkDeviceInfo "Built-in Output" 0 2 48000]
              (mkWindow
                 (mkAudioDenoiser (mkQSlider 0 100 30 true)
                                  (Some AudioProcessor_init))
                 (mkQComboBox [("Built-in Output", 0%nat)] 0) "Start")
              AudioProcessor_init eq_refl eq_refl H)
    as [w' [p' (H1 & _ & H3 & H4 & _)]].
  exists w', p'. repeat split; assumption.
Defined.

Lemma AudioDenoiser_init_eq :
  AudioDenoiser_init
  = Ok (mkAudioDenoiser (mkQSlider 0 100 30 true) (Some AudioProcessor_init)).
Proof. reflexivity. Qed.

(** X21.  A new window, with a virtual-cable device and a device with an
    output channel among the devices, and the button pressed once: the
    stream is set up from the first virtual-cable device to the first
    device with an output channel, with blocks of 2048 frames at 48000 Hz;
    the button reads "Stop" and the processor runs. *)
Theorem new_window_start (query_error : Z -> exn)
  (devices : list DeviceInfo) (i o : nat) :
  find_input_device 0 devices = Some i ->
  first_output 0 devices = Some o ->
  exists w w' args p',
    Window_init devices = Ok w
    /\ press_button query_error devices w = Ok (w', Some (inr args))
    /\ stream_input args = i
    /\ stream_output args = Z.of_nat o
    /\ samplerate args = 48000%Z
    /\ blocksize args = 2048%nat
    /\ (exists di do_,
          nth_error devices i = Some di /\ nth_error devices o = Some do_
          /\ (0 < max_output_channels do_)%Z
          /\ channels args = Z.min (max_input_channels di)
                                   (max_output_channels do_))
    /\ toggle_button w' = "Stop"
    /\ audio_processor (core w') = Some p'
    /\ running p' = true.
Proof.
  intros Hi Ho.
  pose proof Hi as Hfind. apply find_input_device_some in Hfind.
  destruct Hfind as (_ & [di [Hdi _]] & _). rewrite Nat.sub_0_r in Hdi.
  pose proof Ho as Hout. apply first_output_some in Hout.
  destruct Hout as (_ & [do_ [Hdo Hpos]]). rewrite Nat.sub_0_r in Hdo.
  do 4 eexists.
  unfold Window_init. rewrite AudioDenoiser_init_eq. cbn [rbind].
  split; [reflexivity|].
  unfold press_button, Window_toggle_processing, toggle_processing.
  cbn [core output_combo audio_processor running AudioProcessor_init negb
       rbind].
  rewrite populate_currentData, Ho. cbn [option_map].
  unfold run_until_stream, run_setup. cbn [output_device]. rewrite Hi.
  rewrite (query_device_nat _ _ _ _ Hdi), (query_device_nat _ _ _ _ Hdo).
  cbn [rbind]. split; [reflexivity|].
  cbn [stream_input stream_output samplerate blocksize channels buffer_size
       toggle_button core audio_processor].
  repeat (split; [reflexivity|]).
  split; [exists di, do_; repeat split; assumption|].
  repeat split.
Qed.

Lemma new_window_start_witness :
  find_input_device 0 example_devices = Some 2%nat
  /\ first_output 0 example_devices = Some 1%nat
  /\ exists w w' args,
       Window_init example_devices = Ok w
       /\ press_button (fun _ => ValueError "Error querying device")
            example_devices w = Ok (w', Some (inr args))
       /\ stream_input args = 2%nat
       /\ stream_output args = Z.of_nat 1.
Proof.
  split; [reflexivity|]. split; [reflexivity|].
  destruct (new_window_start (fun _ => ValueError "Error querying device")
              example_devices 2 1 eq_refl eq_refl)
    as [w [w' [args [p' (H1 & H2 & H3 & H4 & _)]]]].
  exists w, w', args. repeat split; assumption.
Defined.

(** X22.  A slider with the range 0..100, connected to a processor: asked
    for the value [v], it takes [v] clamped to the range; if that is the
    value it had, nothing changes and the processor keeps its strength;
    otherwise the strength becomes the new value over 100, between 0 and
    1. *)
Theorem slider_sets_strength (d : AudioDenoiser) (p : AudioProcessor)
  (v : Z) :
  audio_processor d = Some p ->
  valueChanged_connected (noise_slider d) = true ->
  minimum (noise_slider d) = 0%Z ->
  maximum (noise_slider d) = 100%Z ->
  exists d' p',
    setValue v d = Ok d'
    /\ audio_processor d' = Some p'
    /\ value (noise_slider d') = clamp 0 100 v
    /\ (clamp 0 100 v = value (noise_slider d) -> d' = d)
    /\ (clamp 0 100 v <> value (noise_slider d) ->
        noise_reduction p' = IZR (clamp 0 100 v) / 100
        /\ 0 <= noise_reduction p' <= 1)
    /\ running p' = running p
    /\ prev_buffer p' = prev_buffer p
    /\ output_device p' = output_device p.
Proof.
  intros Hp Hc Hmin Hmax. unfold setValue. rewrite Hmin, Hmax, Hc.
  destruct (Z.eqb_spec (clamp 0 100 v) (value (noise_slider d))) as [E|E].
  - exists d, p. split; [reflexivity|]. split; [exact Hp|].
    split; [now rewrite E|]. split; [reflexivity|]. split; [contradiction|].
    repeat split.
  - unfold update_noise_reduction. cbn [audio_processor]. rewrite Hp.
    do 2 eexists. split; [reflexivity|].
    cbn [audio_processor noise_slider value]. split; [reflexivity|].
    split; [reflexivity|]. split; [contradiction|].
    split; [|repeat split].
    intros _. cbn [with_noise_reduction noise_reduction].
    split; [reflexivity|].
    assert (H : (0 <= clamp 0 100 v <= 100)%Z) by (unfold clamp; lia).
    destruct H as [H0 H1]. apply IZR_le in H0. apply IZR_le in H1.
    split.
    + apply Rmult_le_pos; lra.
    + lra.
Qed.

Lemma slider_sets_strength_witness :
  audio_processor
    (mkAudioDenoiser (mkQSlider 0 100 30 true) (Some AudioProcessor_init))
  = Some AudioProcessor_init
  /\ valueChanged_connected (mkQSlider 0 100 30 true) = true
  /\ exists d',
       setValue 75
         (mkAudioDenoiser (mkQSlider 0 100 30 true)
                          (Some AudioProcessor_init)) = Ok d'
       /\ value (noise_slider d') = clamp 0 100 75.
Proof.
  split; [reflexivity|]. split; [reflexivity|].
  destruct (slider_sets_strength
              (mkAudioDenoiser (mkQSlider 0 100 30 true)
                               (Some AudioProcessor_init))
              AudioProcessor_init 75 eq_refl eq_refl eq_refl eq_refl)
    as [d' [p' (H1 & _ & H3 & _)]].
  exists d'. split; assumption.
Defined.
